(** * Vietnamese lunar calendar: a shallow embedding of [lunar_solar.py]

    The development follows the Python module function by function.

    - Integer code (Julian day numbers, can-chi tables, weekday) is embedded
      over [Z].  Python's [int(a / b.)] on integer operands is the quotient
      truncated toward zero, [Z.quot]; Python's [%] with a positive modulus
      is [Z.modulo].
    - The astronomical series ([new_moon], [sun_longitude] and their users)
      are embedded over the real numbers of the Standard Library: [math.sin]
      is [sin], [math.pi] is [PI], and [int] on a float is truncation toward
      zero, [int_trunc].  Binary64 rounding is not modelled; the statements
      about concrete dates are therefore statements about the exact-real
      reading of the source.
    - Concrete calls are evaluated by a small certified evaluator: the real
      expressions are reified into a syntax [expr], enclosed in fixed-point
      balls, and the enclosure is proved sound once and for all
      ([approx_sound]).  The control flow around the series is mirrored in
      the option monad ([..._eval]) and each mirror is proved to agree with
      the function it evaluates. *)

From Stdlib Require Import ZArith Lia Bool List String QArith Reals Lra Qreals.
Import ListNotations.
Local Open Scope Z_scope.

Ltac Zify.zify_post_hook ::= Z.to_euclidean_division_equations.

(* ================================================================== *)
(** * Part I.  Definitions                                              *)
(* ================================================================== *)

(** ** Julian day numbers ([julian_day_from_date], [julian_day_to_date]) *)

Definition julian_day_from_date (dd mm yy : Z) : Z :=
  let temp_a := Z.quot (14 - mm) 12 in
  let temp_year := yy + 4800 - temp_a in
  let temp_month := mm + 12 * temp_a - 3 in
  let julian_day :=
    dd + Z.quot (153 * temp_month + 2) 5 + 365 * temp_year
    + Z.quot temp_year 4 - Z.quot temp_year 100 + Z.quot temp_year 400
    - 32045 in
  if julian_day <? 2299161
  then dd + Z.quot (153 * temp_month + 2) 5 + 365 * temp_year
       + Z.quot temp_year 4 - 32083
  else julian_day.

Definition julian_day_to_date (julian_day : Z) : Z * Z * Z :=
  let '(temp_b, temp_c) :=
    if julian_day >? 2299160 then
      let temp_a := julian_day + 32044 in
      let temp_b := Z.quot (4 * temp_a + 3) 146097 in
      (temp_b, temp_a - Z.quot (temp_b * 146097) 4)
    else (0, julian_day + 32082) in
  let temp_d := Z.quot (4 * temp_c + 3) 1461 in
  let temp_e := temp_c - Z.quot (1461 * temp_d) 4 in
  let temp_m := Z.quot (5 * temp_e + 2) 153 in
  let _day := temp_e - Z.quot (153 * temp_m + 2) 5 + 1 in
  let _month := temp_m + 3 - 12 * Z.quot temp_m 10 in
  let _year := temp_b * 100 + temp_d - 4800 + Z.quot temp_m 10 in
  (_day, _month, _year).

(** Proleptic Gregorian calendar dates, as the callers are expected to
    supply them. *)
Definition is_leap_year (y : Z) : bool :=
  ((y mod 4 =? 0) && negb (y mod 100 =? 0)) || (y mod 400 =? 0).

Definition days_in_month (m y : Z) : Z :=
  if m =? 2 then (if is_leap_year y then 29 else 28)
  else if (m =? 4) || (m =? 6) || (m =? 9) || (m =? 11) then 30 else 31.

Definition valid_date (d m y : Z) : Prop :=
  1 <= m <= 12 /\ 1 <= d <= days_in_month m y.

(** The multi-century window in which the series are meant to be used. *)
Definition supported_year (y : Z) : Prop := 1800 <= y <= 2100.

(** Calendar order on (day, month, year) triples. *)
Definition date_lt (d1 m1 y1 d2 m2 y2 : Z) : Prop :=
  y1 < y2 \/ (y1 = y2 /\ (m1 < m2 \/ (m1 = m2 /\ d1 < d2))).

(** March-based decomposition of a civil date, used to reason about the
    two conversion formulas. *)
Definition march_year (m y : Z) : Z := y + 4800 - (14 - m) / 12.
Definition march_month (m : Z) : Z := m + 12 * ((14 - m) / 12) - 3.
Definition march_day (d m : Z) : Z := d - 1 + (153 * march_month m + 2) / 5.
Definition leap_days (Y : Z) : Z := Y / 4 - Y / 100 + Y / 400.
Definition gregorian_days (Y : Z) : Z := 365 * Y + leap_days Y.

(** ** Name tables, can-chi names and weekday names *)

Definition CAN : list string :=
  ["Giáp"; "Ất"; "Bính"; "Đinh"; "Mậu"; "Kỷ";
   "Canh"; "Tân"; "Nhâm"; "Quý"]%string.

Definition CHI : list string :=
  ["Tí"; "Sửu"; "Dần"; "Mão"; "Thìn"; "Tị"; "Ngọ";
   "Mùi"; "Thân"; "Dậu"; "Tuất"; "Hợi"]%string.

Definition CHI_MONTH : list string :=
  [EmptyString; "Dần"; "Mão"; "Thìn"; "Tị"; "Ngọ"; "Mùi";
   "Thân"; "Dậu"; "Tuất"; "Hợi"; "Tí"; "Sửu"]%string.

(** Python list indexing: a negative index counts from the end, and an
    index outside [-len, len) raises [IndexError] ([None] here). *)
Definition py_index {A : Type} (l : list A) (i : Z) : option A :=
  let n := Z.of_nat (List.length l) in
  if (0 <=? i) && (i <? n) then nth_error l (Z.to_nat i)
  else if (- n <=? i) && (i <? 0) then nth_error l (Z.to_nat (n + i))
  else None.

(** ["{} {}".format(a, b)] *)
Definition format2 (a b : string) : string := (a ++ " " ++ b)%string.


Definition zodiac_year (year : Z) : option string :=
  let can_index := (year + 6) mod 10 in
  let chi_index := (year + 8) mod 12 in
  match py_index CAN can_index, py_index CHI chi_index with
  | Some can, Some chi => Some (format2 can chi)
  | _, _ => None
  end.

Definition zodiac_day (solar_dd solar_mm solar_yy : Z) : option string :=
  let julian_day := julian_day_from_date solar_dd solar_mm solar_yy in
  let can_index := (julian_day + 9) mod 10 in
  let chi_index := (julian_day + 1) mod 12 in
  match py_index CAN can_index, py_index CHI chi_index with
  | Some can, Some chi => Some (format2 can chi)
  | _, _ => None
  end.

Definition zodiac_month (month year : Z) : option string :=
  let can_index := (year * 12 + month + 3) mod 10 in
  match py_index CAN can_index, py_index CHI_MONTH month with
  | Some can, Some chi => Some (format2 can chi)
  | _, _ => None
  end.

(** ** Julian-calendar dates, for the branch before the 1582 cutover *)

Definition days_in_julian_month (m y : Z) : Z :=
  if m =? 2 then (if y mod 4 =? 0 then 29 else 28)
  else if (m =? 4) || (m =? 6) || (m =? 9) || (m =? 11) then 30 else 31.

Definition valid_julian_date (d m y : Z) : Prop :=
  1 <= m <= 12 /\ 1 <= d <= days_in_julian_month m y.

(** ** The astronomical series, over the reals *)

(** [int(x)] on a float: truncation toward zero. *)
Definition int_trunc (x : R) : Z :=
  if Rle_dec 0 x then Int_part x else - Int_part (- x).

Local Open Scope R_scope.

Definition new_moon (k_th : R) : R :=
  let time_julian := k_th / 1236.85 in
  let time_julian_2 := time_julian * time_julian in
  let time_julian_3 := time_julian_2 * time_julian in
  let degree_to_radian := PI / 180 in
  let julian_day_1 := 2415020.75933 + 29.53058868 * k_th
                      + 0.0001178 * time_julian_2
                      - 0.000000155 * time_julian_3 in
  let julian_day_1 := julian_day_1
                      + 0.00033 * sin ((166.56 + 132.87 * time_julian
                                        - 0.009173 * time_julian_2)
                                       * degree_to_radian) in
  let mean_new_moon := 359.2242 + 29.10535608 * k_th
                       - 0.0000333 * time_julian_2
                       - 0.00000347 * time_julian_3 in
  let sun_mean_anomaly := 306.0253 + 385.81691806 * k_th
                          + 0.0107306 * time_julian_2
                          + 0.00001236 * time_julian_3 in
  let moon_mean_anomaly := 21.2964 + 390.67050646 * k_th
                           - 0.0016528 * time_julian_2
                           - 0.00000239 * time_julian_3 in
  let moon_arg_lat := (0.1734 - 0.000393 * time_julian)
                      * sin (mean_new_moon * degree_to_radian)
                      + 0.0021 * sin (2 * degree_to_radian * mean_new_moon) in
  let moon_arg_lat := moon_arg_lat
                      - 0.4068 * sin (sun_mean_anomaly * degree_to_radian)
                      + 0.0161 * sin (degree_to_radian * 2 * sun_mean_anomaly) in
  let moon_arg_lat := moon_arg_lat
                      - 0.0004 * sin (degree_to_radian * 3 * sun_mean_anomaly) in
  let moon_arg_lat := moon_arg_lat
                      + 0.0104 * sin (degree_to_radian * 2 * moon_mean_anomaly)
                      - 0.0051 * sin (degree_to_radian
                                      * (mean_new_moon + sun_mean_anomaly)) in
  let moon_arg_lat := moon_arg_lat
                      - 0.0074 * sin (degree_to_radian
                                      * (mean_new_moon - sun_mean_anomaly))
                      + 0.0004 * sin (degree_to_radian
                                      * (2 * moon_mean_anomaly + mean_new_moon)) in
  let moon_arg_lat := moon_arg_lat
                      - 0.0004 * sin (degree_to_radian
                                      * (2 * moon_mean_anomaly - mean_new_moon))
                      - 0.0006 * sin (degree_to_radian
                                      * (2 * moon_mean_anomaly + sun_mean_anomaly)) in
  let moon_arg_lat := moon_arg_lat
                      + 0.0010 * sin (degree_to_radian
                                      * (2 * moon_mean_anomaly - sun_mean_anomaly))
                      + 0.0005 * sin (degree_to_radian
                                      * (2 * sun_mean_anomaly + mean_new_moon)) in
  let deltat :=
    if Rlt_dec time_julian (-11)
    then 0.001 + 0.000839 * time_julian + 0.0002261 * time_julian_2
         - 0.00000845 * time_julian_3
         - 0.000000081 * time_julian * time_julian_3
    else -0.000278 + 0.000265 * time_julian + 0.000262 * time_julian_2 in
  let new_julian_day := julian_day_1 + moon_arg_lat - deltat in
  new_julian_day.

Definition sun_longitude (jdn : R) : R :=
  let time_in_julian := (jdn - 2451545.0) / 36525 in
  let time_in_julian_2 := time_in_julian * time_in_julian in
  let degree_to_radian := PI / 180 in
  let mean_time := 357.52910 + 35999.05030 * time_in_julian
                   - 0.0001559 * time_in_julian_2
                   - 0.00000048 * time_in_julian * time_in_julian_2 in
  let mean_degree := 280.46645 + 36000.76983 * time_in_julian
                     + 0.0003032 * time_in_julian_2 in
  let mean_long_degree := (1.914600 - 0.004817 * time_in_julian
                           - 0.000014 * time_in_julian_2)
                          * sin (degree_to_radian * mean_time) in
  let mean_long_degree := mean_long_degree
                          + ((0.019993 - 0.000101 * time_in_julian)
                             * sin (degree_to_radian * 2 * mean_time)
                             + 0.000290 * sin (degree_to_radian * 3 * mean_time)) in
  let long_degree := mean_degree + mean_long_degree in
  let long_degree := long_degree * degree_to_radian in
  let long_degree := long_degree
                     - PI * 2 * IZR (int_trunc (long_degree / (PI * 2))) in
  long_degree.

Definition get_sun_longitude (day_number : Z) (time_zone : R) : Z :=
  int_trunc (sun_longitude (IZR day_number - 0.5 - time_zone / 24) / PI * 6).

Definition get_new_moon_day (k : Z) (time_zone : R) : Z :=
  int_trunc (new_moon (IZR k) + 0.5 + time_zone / 24).

Definition get_lunar_month_11 (yy : Z) (time_zone : R) : Z :=
  let off := IZR (julian_day_from_date 31 12 yy) - 2415021 in
  let k := int_trunc (off / 29.530588853) in
  let lunar_month := get_new_moon_day k time_zone in
  let sun_long := get_sun_longitude lunar_month time_zone in
  if (sun_long >=? 9)%Z then get_new_moon_day (k - 1) time_zone
  else lunar_month.

(** The [while True: ... break] scan of [get_leap_month_offset].  Each unit
    of fuel is one execution of the loop body; the result is the final [i]
    together with the number of executions. *)
Fixpoint leap_scan (fuel : nat) (k : Z) (time_zone : R) (i arc : Z)
  : option (Z * nat) :=
  match fuel with
  | O => None
  | S fuel' =>
      let last := arc in
      let i := (i + 1)%Z in
      let arc := get_sun_longitude (get_new_moon_day (k + i) time_zone) time_zone in
      if negb (negb (arc =? last)%Z && (i <? 14)%Z) then Some (i, 1%nat)
      else match leap_scan fuel' k time_zone i arc with
           | Some (r, n) => Some (r, S n)
           | None => None
           end
  end.

Definition get_leap_month_offset_steps (fuel : nat) (a11 : Z) (time_zone : R)
  : option (Z * nat) :=
  let k := int_trunc ((IZR a11 - 2415021.076998695) / 29.530588853 + 0.5) in
  let i := 1%Z in
  let arc := get_sun_longitude (get_new_moon_day (k + i) time_zone) time_zone in
  match leap_scan fuel k time_zone i arc with
  | Some (i, n) => Some ((i - 1)%Z, n)
  | None => None
  end.

(** Thirteen executions always suffice ([leap_scan_terminates] below), so
    the [None] branch is never taken. *)
Definition get_leap_month_offset (a11 : Z) (time_zone : R) : Z :=
  match get_leap_month_offset_steps 13 a11 time_zone with
  | Some (off, _) => off
  | None => 0%Z
  end.

Definition solar_to_lunar (solar_dd solar_mm solar_yy : Z) (time_zone : R)
  : Z * Z * Z * Z :=
  let day_number := julian_day_from_date solar_dd solar_mm solar_yy in
  let k := int_trunc ((IZR day_number - 2415021.076998695) / 29.530588853) in
  let month_start := get_new_moon_day (k + 1) time_zone in
  let month_start :=
    if (month_start >? day_number)%Z then get_new_moon_day k time_zone
    else month_start in
  let a11 := get_lunar_month_11 solar_yy time_zone in
  let b11 := a11 in
  let '(lunar_year, a11, b11) :=
    if (a11 >=? month_start)%Z
    then (solar_yy, get_lunar_month_11 (solar_yy - 1) time_zone, b11)
    else ((solar_yy + 1)%Z, a11, get_lunar_month_11 (solar_yy + 1) time_zone) in
  let lunar_day := (day_number - month_start + 1)%Z in
  let diff := int_trunc (IZR (month_start - a11) / 29) in
  let lunar_leap := 0%Z in
  let lunar_month := (diff + 11)%Z in
  let '(lunar_month, lunar_leap) :=
    if (b11 - a11 >? 365)%Z then
      let leap_month_diff := get_leap_month_offset a11 time_zone in
      let lunar_month :=
        if (diff >=? leap_month_diff)%Z then (diff + 10)%Z else lunar_month in
      let lunar_leap :=
        if (diff =? leap_month_diff)%Z then 1%Z else lunar_leap in
      (lunar_month, lunar_leap)
    else (lunar_month, lunar_leap) in
  let lunar_month :=
    if (lunar_month >? 12)%Z then (lunar_month - 12)%Z else lunar_month in
  let lunar_year :=
    if (lunar_month >=? 11)%Z && (diff <? 4)%Z then (lunar_year - 1)%Z
    else lunar_year in
  (lunar_day, lunar_month, lunar_year, lunar_leap).

Definition lunar_to_solar
  (lunar_day lunar_month lunar_year lunar_leap_month : Z) (time_zone : R)
  : Z * Z * Z :=
  let '(a11, b11) :=
    if (lunar_month <? 11)%Z
    then (get_lunar_month_11 (lunar_year - 1) time_zone,
          get_lunar_month_11 lunar_year time_zone)
    else (get_lunar_month_11 lunar_year time_zone,
          get_lunar_month_11 (lunar_year + 1) time_zone) in
  let k := int_trunc (0.5 + (IZR a11 - 2415021.076998695) / 29.530588853) in
  let off := (lunar_month - 11)%Z in
  let off := if (off <? 0)%Z then (off + 12)%Z else off in
  let off_or_invalid : option Z :=
    if (b11 - a11 >? 365)%Z then
      let leap_off := get_leap_month_offset a11 time_zone in
      let leap_month := (leap_off - 2)%Z in
      let leap_month :=
        if (leap_month <? 0)%Z then (leap_month + 12)%Z else leap_month in
      if negb (lunar_leap_month =? 0)%Z && negb (lunar_month =? leap_month)%Z
      then None
      else if negb (lunar_leap_month =? 0)%Z || (off >=? leap_off)%Z
           then Some (off + 1)%Z
           else Some off
    else Some off in
  match off_or_invalid with
  | None => (0, 0, 0)%Z
  | Some off =>
      let month_start := get_new_moon_day (k + off) time_zone in
      julian_day_to_date (month_start + lunar_day - 1)
  end.

(** The month-11 boundaries [lunar_to_solar] works with. *)
Definition lunar_year_bounds (lunar_month lunar_year : Z) (time_zone : R)
  : Z * Z :=
  if (lunar_month <? 11)%Z
  then (get_lunar_month_11 (lunar_year - 1) time_zone,
        get_lunar_month_11 lunar_year time_zone)
  else (get_lunar_month_11 lunar_year time_zone,
        get_lunar_month_11 (lunar_year + 1) time_zone).

Local Close Scope R_scope.

(** Whether the lunar year [lunar_to_solar] works with has a 13th lunation,
    and the month number its leap month repeats. *)
Definition has_13th_lunation (lunar_month lunar_year : Z) (time_zone : R) : bool :=
  let '(a11, b11) := lunar_year_bounds lunar_month lunar_year time_zone in
  b11 - a11 >? 365.

Definition year_leap_month (lunar_month lunar_year : Z) (time_zone : R) : Z :=
  let '(a11, _) := lunar_year_bounds lunar_month lunar_year time_zone in
  (get_leap_month_offset a11 time_zone - 2) mod 12.

(** ** A certified evaluator for the real-valued fragment *)

(** *** Fixed-point balls: [x] lies in the ball [b] when
    [ctr b - rad b <= x * scale <= ctr b + rad b]. *)

Definition scale : Z := 2 ^ 60.
Definition sdiv (a : Z) : Z := Z.shiftr a 60.

Record ball : Set := mkBall { ctr : Z; rad : Z }.

Definition contains (b : ball) (x : R) : Prop :=
  (IZR (ctr b - rad b) <= x * IZR scale <= IZR (ctr b + rad b))%R.

Definition ball_of_bounds (l h : Z) : ball :=
  mkBall ((l + h) / 2) ((h - l) / 2 + 1).
Definition ball_Z (z : Z) : ball := mkBall (z * scale) 0.
Definition ball_Q (q : Q) : ball :=
  mkBall (Qnum q * scale / Zpos (Qden q)) 1.
Definition ball_add (a b : ball) : ball :=
  mkBall (ctr a + ctr b) (rad a + rad b).
Definition ball_sub (a b : ball) : ball :=
  mkBall (ctr a - ctr b) (rad a + rad b).
Definition ball_opp (a : ball) : ball := mkBall (- ctr a) (rad a).
Definition ball_mul (a b : ball) : ball :=
  mkBall (sdiv (ctr a * ctr b))
         (sdiv (Z.abs (ctr a) * rad b + Z.abs (ctr b) * rad a + rad a * rad b) + 2).
Definition ball_inv (a : ball) : option ball :=
  let lo := ctr a - rad a in
  let hi := ctr a + rad a in
  if 0 <? lo
  then Some (ball_of_bounds (scale * scale / hi) (scale * scale / lo + 1))
  else None.

(** *** A rational enclosure of [PI], from the series
    [PI / 4 = 2 atan (1/3) + atan (1/7)] of the Standard Library. *)

Fixpoint qpow (q : Q) (n : nat) : Q :=
  match n with O => 1%Q | S n' => (q * qpow q n')%Q end.

Definition qratan_seq (x : Q) (n : nat) : Q :=
  (qpow x (2 * n + 1) / inject_Z (Z.of_nat (2 * n + 1)))%Q.

Definition qpi_tg (n : nat) : Q :=
  (2 * qratan_seq (1 # 3) n + qratan_seq (1 # 7) n)%Q.

Fixpoint qpi_sum (n : nat) : Q :=
  match n with
  | O => (qpow (-1) 0 * qpi_tg 0)%Q
  | S i => Qred (qpi_sum i + qpow (-1) (S i) * qpi_tg (S i))%Q
  end.

Definition pi_lo : Z :=
  Eval vm_compute in
    (let q := qpi_sum 25 in 4 * Qnum q * scale / Zpos (Qden q)).
Definition pi_hi : Z :=
  Eval vm_compute in
    (let q := qpi_sum 24 in 4 * Qnum q * scale / Zpos (Qden q) + 1).

Definition ball_pi : ball := ball_of_bounds pi_lo pi_hi.

(** *** Enclosure of [sin] *)

Fixpoint zfact (n : nat) : Z :=
  match n with O => 1 | S n' => Z.of_nat n * zfact n' end.

(** Term [i] of the sine series, given [p] enclosing [x ^ (2 i + 1)]. *)
Definition ball_sin_term (p : ball) (i : nat) : ball :=
  ball_mul (ball_Z ((-1) ^ Z.of_nat i))
           (ball_mul p (ball_Q (1 # Z.to_pos (zfact (2 * i + 1))))).

(** [acc] encloses the partial sum up to term [i - 1] and [p] encloses
    [x ^ (2 i - 1)]; each round multiplies [p] by [x * x] and adds term [i]. *)
Fixpoint ball_sin_loop (a2 p acc : ball) (i fuel : nat) : ball * ball :=
  match fuel with
  | O => (acc, p)
  | S f =>
      let p' := ball_mul a2 p in
      ball_sin_loop a2 p' (ball_add acc (ball_sin_term p' i)) (S i) f
  end.

(** Alternating-series enclosure, valid on [[0, 4]]. *)
Definition ball_sin_taylor (y : ball) : ball :=
  let a2 := ball_mul y y in
  let '(l, p) := ball_sin_loop a2 y (ball_sin_term y 0) 1 11 in
  let u := ball_add l (ball_sin_term (ball_mul a2 p) 12) in
  ball_of_bounds (ctr l - rad l) (ctr u + rad u).

(** Remove [q] whole turns. *)
Definition ball_reduce (b : ball) (q : Z) : ball :=
  mkBall (ctr b - q * (pi_lo + pi_hi)) (rad b + Z.abs q * (pi_hi - pi_lo)).

Definition ball_sin (b : ball) : option ball :=
  let q := (ctr b + pi_lo) / (2 * pi_lo) in
  let y := ball_reduce b q in
  if 0 <=? ctr y - rad y then
    if ctr y + rad y <=? 4 * scale then Some (ball_sin_taylor y) else None
  else if ctr y + rad y <=? 0 then
    if - (4 * scale) <=? ctr y - rad y
    then Some (ball_opp (ball_sin_taylor (ball_opp y))) else None
  else None.

(** [int] of a ball, when every point of the ball truncates alike. *)
Definition ball_trunc (b : ball) : option Z :=
  let lo := ctr b - rad b in
  let hi := ctr b + rad b in
  if 0 <=? lo then
    (if hi <? (lo / scale + 1) * scale then Some (lo / scale) else None)
  else if hi <=? 0 then
    (if - lo <? ((- hi) / scale + 1) * scale
     then Some (- ((- hi) / scale)) else None)
  else if (- scale <? lo) && (hi <? scale) then Some 0
  else None.

(** *** Syntax of the float expressions of the source *)

Inductive expr : Set :=
| EInt (z : Z)
| EDec (q : Q)
| EPi
| EAdd (a b : expr)
| ESub (a b : expr)
| EMul (a b : expr)
| EDiv (a b : expr)
| EOpp (a : expr)
| ESin (a : expr)
| ETrunc (a : expr)
| EIfLt (a b x y : expr).

Fixpoint denote (e : expr) : R :=
  match e with
  | EInt z => IZR z
  | EDec q => Q2R q
  | EPi => PI
  | EAdd a b => denote a + denote b
  | ESub a b => denote a - denote b
  | EMul a b => denote a * denote b
  | EDiv a b => denote a / denote b
  | EOpp a => - denote a
  | ESin a => sin (denote a)
  | ETrunc a => IZR (int_trunc (denote a))
  | EIfLt a b x y =>
      if Rlt_dec (denote a) (denote b) then denote x else denote y
  end%R.

Definition obind {A B : Type} (o : option A) (f : A -> option B) : option B :=
  match o with Some a => f a | None => None end.

Fixpoint approx (e : expr) : option ball :=
  match e with
  | EInt z => Some (ball_Z z)
  | EDec q => Some (ball_Q q)
  | EPi => Some ball_pi
  | EAdd a b =>
      obind (approx a) (fun x => obind (approx b) (fun y => Some (ball_add x y)))
  | ESub a b =>
      obind (approx a) (fun x => obind (approx b) (fun y => Some (ball_sub x y)))
  | EMul a b =>
      obind (approx a) (fun x => obind (approx b) (fun y => Some (ball_mul x y)))
  | EDiv a b =>
      obind (approx a) (fun x => obind (approx b) (fun y =>
        obind (ball_inv y) (fun i => Some (ball_mul x i))))
  | EOpp a => obind (approx a) (fun x => Some (ball_opp x))
  | ESin a => obind (approx a) ball_sin
  | ETrunc a =>
      obind (approx a) (fun x => obind (ball_trunc x) (fun n => Some (ball_Z n)))
  | EIfLt a b x y =>
      obind (approx a) (fun u => obind (approx b) (fun v =>
        if ctr u + rad u <? ctr v - rad v then approx x
        else if ctr v + rad v <=? ctr u - rad u then approx y
        else None))
  end.

Definition eval_trunc (e : expr) : option Z := obind (approx e) ball_trunc.

(** Reification of a real expression in the variable [x], which is mapped
    to the expression [e]. *)
Ltac reify x e t :=
  lazymatch t with
  | x => e
  | (?a + ?b)%R =>
      let a' := reify x e a in let b' := reify x e b in constr:(EAdd a' b')
  | (?a - ?b)%R =>
      let a' := reify x e a in let b' := reify x e b in constr:(ESub a' b')
  | (?a * ?b)%R =>
      let a' := reify x e a in let b' := reify x e b in constr:(EMul a' b')
  | (?a / ?b)%R =>
      let a' := reify x e a in let b' := reify x e b in constr:(EDiv a' b')
  | (- ?a)%R => let a' := reify x e a in constr:(EOpp a')
  | sin ?a => let a' := reify x e a in constr:(ESin a')
  | PI => constr:(EPi)
  | IZR (int_trunc ?a) => let a' := reify x e a in constr:(ETrunc a')
  | IZR ?z => constr:(EInt z)
  | Q2R ?q => constr:(EDec q)
  | (if Rlt_dec ?a ?b then ?u else ?v) =>
      let a' := reify x e a in let b' := reify x e b in
      let u' := reify x e u in let v' := reify x e v in
      constr:(EIfLt a' b' u' v')
  end.

(** The two series as expressions, obtained from their definitions. *)
Definition new_moon_expr (k : expr) : expr.
Proof.
  assert (x : R) by exact 0%R.
  let t := eval cbv beta zeta delta [new_moon] in (new_moon x) in
  let r := reify x k t in exact r.
Defined.

Definition sun_longitude_expr (j : expr) : expr.
Proof.
  assert (x : R) by exact 0%R.
  let t := eval cbv beta zeta delta [sun_longitude] in (sun_longitude x) in
  let r := reify x j t in exact r.
Defined.

Definition get_new_moon_day_expr (k tz : Z) : expr :=
  EAdd (EAdd (new_moon_expr (EInt k)) (EDec 0.5)) (EDiv (EInt tz) (EInt 24)).

Definition get_sun_longitude_expr (dn tz : Z) : expr :=
  EMul (EDiv (sun_longitude_expr
                (ESub (ESub (EInt dn) (EDec 0.5)) (EDiv (EInt tz) (EInt 24))))
             EPi) (EInt 6).

(** The three lunation-index estimates of the source. *)
Definition month_11_index_expr (yy : Z) : expr :=
  EDiv (ESub (EInt (julian_day_from_date 31 12 yy)) (EInt 2415021))
       (EDec 29.530588853).

Definition leap_index_expr (a11 : Z) : expr :=
  EAdd (EDiv (ESub (EInt a11) (EDec 2415021.076998695)) (EDec 29.530588853))
       (EDec 0.5).

Definition day_index_expr (day_number : Z) : expr :=
  EDiv (ESub (EInt day_number) (EDec 2415021.076998695)) (EDec 29.530588853).

Definition base_index_expr (a11 : Z) : expr :=
  EAdd (EDec 0.5)
       (EDiv (ESub (EInt a11) (EDec 2415021.076998695)) (EDec 29.530588853)).

(** *** Mirrors of the integer-valued functions, in the option monad.
    [None] means that some enclosure was too wide to decide a truncation
    or a comparison. *)

Definition get_new_moon_day_eval (k tz : Z) : option Z :=
  eval_trunc (get_new_moon_day_expr k tz).

Definition get_sun_longitude_eval (dn tz : Z) : option Z :=
  eval_trunc (get_sun_longitude_expr dn tz).

Definition get_lunar_month_11_eval (yy tz : Z) : option Z :=
  obind (eval_trunc (month_11_index_expr yy)) (fun k =>
  obind (get_new_moon_day_eval k tz) (fun lunar_month =>
  obind (get_sun_longitude_eval lunar_month tz) (fun sun_long =>
  if sun_long >=? 9 then get_new_moon_day_eval (k - 1) tz
  else Some lunar_month))).

Definition sector_at_new_moon_eval (k tz : Z) : option Z :=
  obind (get_new_moon_day_eval k tz) (fun d => get_sun_longitude_eval d tz).

Fixpoint leap_scan_eval (fuel : nat) (k tz i arc : Z) : option (Z * nat) :=
  match fuel with
  | O => None
  | S fuel' =>
      let last := arc in
      let i := i + 1 in
      obind (sector_at_new_moon_eval (k + i) tz) (fun arc =>
      if negb (negb (arc =? last) && (i <? 14)) then Some (i, 1%nat)
      else match leap_scan_eval fuel' k tz i arc with
           | Some (r, n) => Some (r, S n)
           | None => None
           end)
  end.

Definition get_leap_month_offset_eval (a11 tz : Z) : option Z :=
  obind (eval_trunc (leap_index_expr a11)) (fun k =>
  obind (sector_at_new_moon_eval (k + 1) tz) (fun arc =>
  match leap_scan_eval 13 k tz 1 arc with
  | Some (i, _) => Some (i - 1)
  | None => None
  end)).

Definition solar_to_lunar_eval (solar_dd solar_mm solar_yy tz : Z)
  : option (Z * Z * Z * Z) :=
  let day_number := julian_day_from_date solar_dd solar_mm solar_yy in
  obind (eval_trunc (day_index_expr day_number)) (fun k =>
  obind (get_new_moon_day_eval (k + 1) tz) (fun month_start =>
  obind (if month_start >? day_number then get_new_moon_day_eval k tz
         else Some month_start) (fun month_start =>
  obind (get_lunar_month_11_eval solar_yy tz) (fun a11 =>
  let b11 := a11 in
  obind (if a11 >=? month_start
         then obind (get_lunar_month_11_eval (solar_yy - 1) tz)
                    (fun a => Some (solar_yy, a, b11))
         else obind (get_lunar_month_11_eval (solar_yy + 1) tz)
                    (fun b => Some (solar_yy + 1, a11, b)))
        (fun '(lunar_year, a11, b11) =>
  let lunar_day := day_number - month_start + 1 in
  let diff := Z.quot (month_start - a11) 29 in
  let lunar_leap := 0 in
  let lunar_month := diff + 11 in
  obind (if b11 - a11 >? 365 then
           obind (get_leap_month_offset_eval a11 tz) (fun leap_month_diff =>
             Some (if diff >=? leap_month_diff then diff + 10 else lunar_month,
                   if diff =? leap_month_diff then 1 else lunar_leap))
         else Some (lunar_month, lunar_leap))
        (fun '(lunar_month, lunar_leap) =>
  let lunar_month := if lunar_month >? 12 then lunar_month - 12 else lunar_month in
  let lunar_year :=
    if (lunar_month >=? 11) && (diff <? 4) then lunar_year - 1 else lunar_year in
  Some (lunar_day, lunar_month, lunar_year, lunar_leap))))))).

Definition lunar_year_bounds_eval (lunar_month lunar_year tz : Z)
  : option (Z * Z) :=
  if lunar_month <? 11
  then obind (get_lunar_month_11_eval (lunar_year - 1) tz) (fun a =>
       obind (get_lunar_month_11_eval lunar_year tz) (fun b => Some (a, b)))
  else obind (get_lunar_month_11_eval lunar_year tz) (fun a =>
       obind (get_lunar_month_11_eval (lunar_year + 1) tz) (fun b => Some (a, b))).

Definition lunar_to_solar_eval
  (lunar_day lunar_month lunar_year lunar_leap_month tz : Z)
  : option (Z * Z * Z) :=
  obind (lunar_year_bounds_eval lunar_month lunar_year tz) (fun '(a11, b11) =>
  obind (eval_trunc (base_index_expr a11)) (fun k =>
  let off := lunar_month - 11 in
  let off := if off <? 0 then off + 12 else off in
  obind (if b11 - a11 >? 365 then
           obind (get_leap_month_offset_eval a11 tz) (fun leap_off =>
             let leap_month := leap_off - 2 in
             let leap_month :=
               if leap_month <? 0 then leap_month + 12 else leap_month in
             if negb (lunar_leap_month =? 0) && negb (lunar_month =? leap_month)
             then Some None
             else if negb (lunar_leap_month =? 0) || (off >=? leap_off)
                  then Some (Some (off + 1))
                  else Some (Some off))
         else Some (Some off))
        (fun off_or_invalid =>
  match off_or_invalid with
  | None => Some (0, 0, 0)
  | Some off =>
      obind (get_new_moon_day_eval (k + off) tz) (fun month_start =>
      Some (julian_day_to_date (month_start + lunar_day - 1)))
  end))).

(** ** The date arithmetic of the sensors ([sensor.py]) *)

(** [LunarFirstOrFifteenthSensor.async_update]: the state shown for a
    lunar day. *)
Definition first_or_fifteenth_state (lunar_day : Z) : string :=
  if lunar_day =? 1 then "Mùng 1"%string
  else if lunar_day =? 15 then "Rằm"%string
  else "Không"%string.

(** [NextLunarFirstSensor.async_update]: the (month, year) whose first day
    is looked up.  [next_month] is assigned under [if lunar_day >= 1] only;
    otherwise its use raises [NameError] ([None] here). *)
Definition next_lunar_first_target (lunar_day lunar_month lunar_year : Z)
  : option (Z * Z) :=
  if lunar_day >=? 1 then
    let next_month := lunar_month + 1 in
    let next_year := lunar_year in
    if next_month >? 12 then Some (1, next_year + 1)
    else Some (next_month, next_year)
  else None.

(** [NextLunarFifteenthSensor.async_update]: the (month, year) whose 15th
    day is looked up. *)
Definition next_lunar_fifteenth_target (lunar_day lunar_month lunar_year : Z)
  : Z * Z :=
  if lunar_day >=? 15 then
    let target_month := lunar_month + 1 in
    let target_year := lunar_year in
    if target_month >? 12 then (1, target_year + 1)
    else (target_month, target_year)
  else (lunar_month, lunar_year).

(** Outcome of an update, up to the construction of the [datetime]. *)
Inductive update : Set :=
| Raised
| Unchanged
| Converted (solar_date : Z * Z * Z).

(** Both sensors call the converters with the default time zone 7 and
    pass 0 as the leap-month flag of [lunar_to_solar]. *)
Definition next_lunar_first_update (now_day now_month now_year : Z) : update :=
  let '(lunar_day, lunar_month, lunar_year, is_leap) :=
    solar_to_lunar now_day now_month now_year 7 in
  match next_lunar_first_target lunar_day lunar_month lunar_year with
  | None => Raised
  | Some (next_month, next_year) =>
      let solar_date := lunar_to_solar 1 next_month next_year 0 7 in
      if negb (fst (fst solar_date) =? 0) then Converted solar_date
      else Unchanged
  end.

Definition next_lunar_fifteenth_update (now_day now_month now_year : Z)
  : update :=
  let '(lunar_day, lunar_month, lunar_year, is_leap) :=
    solar_to_lunar now_day now_month now_year 7 in
  let '(target_month, target_year) :=
    next_lunar_fifteenth_target lunar_day lunar_month lunar_year in
  let solar_date := lunar_to_solar 15 target_month target_year 0 7 in
  if negb (fst (fst solar_date) =? 0) then Converted solar_date
  else Unchanged.

(* ================================================================== *)
(** * Part II.  Theorems                                                *)
(* ================================================================== *)

(** ** Julian day numbers *)

Lemma days_in_month_cases m y :
  1 <= m <= 12 ->
  28 <= days_in_month m y <= 31 /\
  (m = 4 \/ m = 6 \/ m = 9 \/ m = 11 -> days_in_month m y = 30) /\
  (m = 2 ->
   days_in_month m y <= 29 /\
   (days_in_month m y = 29 ->
    (y mod 4 = 0 /\ y mod 100 <> 0) \/ y mod 400 = 0)).
Proof.
  intros Hm. unfold days_in_month, is_leap_year.
  destruct (Z.eqb_spec m 2); [subst|].
  - destruct (Z.eqb_spec (y mod 4) 0), (Z.eqb_spec (y mod 100) 0),
             (Z.eqb_spec (y mod 400) 0); simpl; lia.
  - destruct (Z.eqb_spec m 4), (Z.eqb_spec m 6), (Z.eqb_spec m 9),
             (Z.eqb_spec m 11); simpl; lia.
Qed.

Ltac month_cases m H :=
  assert (m = 1 \/ m = 2 \/ m = 3 \/ m = 4 \/ m = 5 \/ m = 6 \/ m = 7
          \/ m = 8 \/ m = 9 \/ m = 10 \/ m = 11 \/ m = 12) as H by lia;
  repeat (destruct H as [H | H]); subst m.

(** After the cutover the Gregorian branch is taken, and the day number
    splits into the days before the March-based year and the day within. *)
Lemma from_date_gregorian d m y :
  valid_date d m y -> 1583 <= y ->
  julian_day_from_date d m y
  = gregorian_days (march_year m y) + march_day d m - 32044
  /\ 2299161 <= julian_day_from_date d m y.
Proof.
  intros [Hm Hd] Hy.
  destruct (days_in_month_cases m y Hm) as (H31 & _ & _).
  unfold julian_day_from_date, gregorian_days, leap_days, march_day,
    march_month, march_year.
  cbv zeta.
  match goal with
  | |- context [if ?a <? ?b then _ else _] => destruct (Z.ltb_spec a b)
  end.
  - exfalso. lia.
  - split; [lia | assumption].
Qed.

Lemma march_day_range d m y :
  valid_date d m y ->
  0 <= march_day d m <= 365 /\ (march_day d m = 365 -> m = 2 /\ d = 29).
Proof.
  intros [Hm Hd].
  destruct (days_in_month_cases m y Hm) as (H31 & H30 & H2).
  unfold march_day, march_month.
  month_cases m Hc; lia.
Qed.

Lemma month_of_march_day d m y :
  valid_date d m y ->
  (5 * march_day d m + 2) / 153 = march_month m /\ 0 <= march_month m <= 11.
Proof.
  intros [Hm Hd].
  destruct (days_in_month_cases m y Hm) as (H31 & H30 & H2).
  unfold march_day, march_month.
  month_cases m Hc; lia.
Qed.

Lemma year_of_century_day yc doy :
  0 <= yc <= 99 -> 0 <= doy <= 365 -> (doy = 365 -> yc mod 4 = 3) ->
  (4 * (365 * yc + yc / 4 + doy) + 3) / 1461 = yc /\
  (1461 * yc) / 4 = 365 * yc + yc / 4.
Proof. intros. lia. Qed.

Lemma century_of_day Cn c :
  0 <= Cn -> 0 <= c <= 36524 -> (c = 36524 -> Cn mod 4 = 3) ->
  (4 * (36524 * Cn + Cn / 4 + c) + 3) / 146097 = Cn /\
  (Cn * 146097) / 4 = 36524 * Cn + Cn / 4.
Proof. intros. lia. Qed.

Lemma gregorian_days_split Y :
  0 <= Y ->
  gregorian_days Y
  = 36524 * (Y / 100) + (Y / 100) / 4
    + (365 * (Y mod 100) + (Y mod 100) / 4).
Proof. intros. unfold gregorian_days, leap_days. lia. Qed.

Lemma to_date_of_parts Cn yc doy M :
  0 <= Cn -> 0 <= yc <= 99 -> 0 <= doy <= 365 ->
  (doy = 365 -> yc mod 4 = 3) ->
  (365 * yc + yc / 4 + doy = 36524 -> Cn mod 4 = 3) ->
  (5 * doy + 2) / 153 = M -> 0 <= M <= 11 ->
  2299160 < 36524 * Cn + Cn / 4 + (365 * yc + yc / 4 + doy) - 32044 ->
  julian_day_to_date
    (36524 * Cn + Cn / 4 + (365 * yc + yc / 4 + doy) - 32044)
  = (doy - (153 * M + 2) / 5 + 1, M + 3 - 12 * (M / 10),
     Cn * 100 + yc - 4800 + M / 10).
Proof.
  intros HCn Hyc Hdoy Hleap Hcent HM HMr Hcut.
  set (c := 365 * yc + yc / 4 + doy) in *.
  assert (Hc : 0 <= c <= 36524) by (unfold c; lia).
  destruct (century_of_day Cn c HCn Hc Hcent) as [Hb Hb'].
  destruct (year_of_century_day yc doy Hyc Hdoy Hleap) as [Hd Hd'].
  fold c in Hd.
  unfold julian_day_to_date.
  replace (_ >? 2299160) with true by (symmetry; apply Z.gtb_lt; exact Hcut).
  replace (36524 * Cn + Cn / 4 + c - 32044 + 32044)
    with (36524 * Cn + Cn / 4 + c) by ring.
  rewrite (Z.quot_div_nonneg (4 * _ + 3) 146097) by lia.
  rewrite Hb.
  rewrite (Z.quot_div_nonneg (Cn * 146097) 4) by lia.
  rewrite Hb'.
  replace (36524 * Cn + Cn / 4 + c - (36524 * Cn + Cn / 4)) with c by ring.
  rewrite (Z.quot_div_nonneg (4 * c + 3) 1461) by lia.
  rewrite Hd.
  rewrite (Z.quot_div_nonneg (1461 * yc) 4) by lia.
  rewrite Hd'.
  replace (c - (365 * yc + yc / 4)) with doy by (unfold c; ring).
  rewrite (Z.quot_div_nonneg (5 * doy + 2) 153) by lia.
  rewrite HM.
  rewrite (Z.quot_div_nonneg (153 * M + 2) 5) by lia.
  rewrite (Z.quot_div_nonneg M 10) by lia.
  reflexivity.
Qed.

(** Round trip for every Gregorian date after the cutover year. *)
Lemma julian_day_roundtrip_gregorian d m y :
  valid_date d m y -> 1583 <= y ->
  julian_day_to_date (julian_day_from_date d m y) = (d, m, y).
Proof.
  intros Hv Hy.
  destruct (from_date_gregorian d m y Hv Hy) as [Hjd Hcut].
  destruct (march_day_range d m y Hv) as [Hdoy Hfeb].
  destruct (month_of_march_day d m y Hv) as [HM HMr].
  destruct Hv as [Hm Hd].
  destruct (days_in_month_cases m y Hm) as (_ & _ & H2).
  assert (HY : 6382 <= march_year m y) by (unfold march_year; lia).
  rewrite Hjd in *. rewrite gregorian_days_split in * by lia.
  set (Y := march_year m y) in *.
  replace (36524 * (Y / 100) + Y / 100 / 4
           + (365 * (Y mod 100) + Y mod 100 / 4) + march_day d m - 32044)
    with (36524 * (Y / 100) + Y / 100 / 4
          + (365 * (Y mod 100) + Y mod 100 / 4 + march_day d m) - 32044)
    in * by ring.
  assert (Hleap : march_day d m = 365 ->
                  (Y mod 100) mod 4 = 3 /\
                  (Y mod 100 = 99 -> (Y / 100) mod 4 = 3)).
  { intros E. destruct (Hfeb E) as [-> ->]. specialize (H2 eq_refl).
    destruct H2 as [H29 H2].
    assert (Hl : days_in_month 2 y = 29) by lia. specialize (H2 Hl).
    unfold Y, march_year. lia. }
  rewrite (to_date_of_parts (Y / 100) (Y mod 100) (march_day d m)
             (march_month m)); try lia.
  unfold march_day, march_month, Y, march_year.
  assert (Ha : 0 <= (14 - m) / 12 <= 1) by lia.
  f_equal; [f_equal|]; lia.
Qed.

(** C4: for every valid proleptic Gregorian date in the supported range,
    converting to a Julian day number and back returns the date. *)
Theorem julian_day_roundtrip d m y :
  valid_date d m y -> supported_year y ->
  julian_day_to_date (julian_day_from_date d m y) = (d, m, y).
Proof.
  intros Hv Hy. apply julian_day_roundtrip_gregorian; [exact Hv|].
  unfold supported_year in Hy. lia.
Qed.

Lemma julian_day_roundtrip_witness :
  valid_date 29 2 2024 /\ supported_year 2024 /\
  julian_day_to_date (julian_day_from_date 29 2 2024) = (29, 2, 2024).
Proof.
  assert (Hv : valid_date 29 2 2024)
    by (unfold valid_date; change (days_in_month 2 2024) with 29; lia).
  assert (Hy : supported_year 2024) by (unfold supported_year; lia).
  split; [exact Hv | split; [exact Hy | exact (julian_day_roundtrip 29 2 2024 Hv Hy)]].
Defined.

Lemma gregorian_days_succ Y :
  0 <= Y ->
  gregorian_days Y + 365 <= gregorian_days (Y + 1) <= gregorian_days Y + 366
  /\ (gregorian_days (Y + 1) = gregorian_days Y + 365 ->
      ~ ((Y + 1) mod 4 = 0 /\ ((Y + 1) mod 100 <> 0 \/ (Y + 1) mod 400 = 0))).
Proof. intros. unfold gregorian_days, leap_days. lia. Qed.

Lemma gregorian_days_mono Y1 Y2 :
  0 <= Y1 -> Y1 <= Y2 ->
  gregorian_days Y1 + 365 * (Y2 - Y1) <= gregorian_days Y2.
Proof.
  intros H0 Hle. pattern Y2. apply (Zlt_lower_bound_rec _ Y1); [|exact Hle].
  intros x IH Hx.
  destruct (Z.eq_dec x Y1) as [->|Hne]; [lia|].
  specialize (IH (x - 1) ltac:(lia)).
  pose proof (gregorian_days_succ (x - 1) ltac:(lia)) as [Hs _].
  replace (x - 1 + 1) with x in Hs by ring. lia.
Qed.

Lemma julian_day_increasing_gregorian d1 m1 y1 d2 m2 y2 :
  valid_date d1 m1 y1 -> valid_date d2 m2 y2 -> 1583 <= y1 ->
  date_lt d1 m1 y1 d2 m2 y2 ->
  julian_day_from_date d1 m1 y1 < julian_day_from_date d2 m2 y2.
Proof.
  intros Hv1 Hv2 Hy Hlt.
  assert (Hy2 : 1583 <= y2) by (unfold date_lt in Hlt; lia).
  destruct (from_date_gregorian d1 m1 y1 Hv1 Hy) as [-> _].
  destruct (from_date_gregorian d2 m2 y2 Hv2 Hy2) as [-> _].
  destruct (march_day_range d1 m1 y1 Hv1) as [Hr1 Hf1].
  destruct (march_day_range d2 m2 y2 Hv2) as [Hr2 Hf2].
  destruct Hv1 as [Hm1 Hd1], Hv2 as [Hm2 Hd2].
  destruct (days_in_month_cases m1 y1 Hm1) as (H31 & H30 & H2).
  assert (Ha1 : 0 <= (14 - m1) / 12 <= 1) by lia.
  assert (Ha2 : 0 <= (14 - m2) / 12 <= 1) by lia.
  destruct (Z.lt_trichotomy (march_year m1 y1) (march_year m2 y2))
    as [HY | [HY | HY]].
  - pose proof (gregorian_days_succ (march_year m1 y1)
                  ltac:(unfold march_year; lia)) as [Hs Hl].
    pose proof (gregorian_days_mono (march_year m1 y1 + 1) (march_year m2 y2)
                  ltac:(unfold march_year; lia) ltac:(lia)) as Hmono.
    destruct (Z.eq_dec (march_day d1 m1) 365) as [E | NE]; [|lia].
    destruct (Hf1 E) as [-> ->].
    assert (Hl29 : days_in_month 2 y1 = 29) by lia.
    specialize (H2 eq_refl). destruct H2 as [_ H2]. specialize (H2 Hl29).
    assert (gregorian_days (march_year 2 y1 + 1)
            <> gregorian_days (march_year 2 y1) + 365).
    { intros Heq. apply Hl; [exact Heq|]. unfold march_year. lia. }
    lia.
  - rewrite HY.
    assert (march_day d1 m1 < march_day d2 m2); [|lia].
    unfold march_year in HY. unfold date_lt in Hlt.
    unfold march_day, march_month.
    month_cases m1 Hc1; month_cases m2 Hc2; lia.
  - exfalso. unfold march_year in HY. unfold date_lt in Hlt. lia.
Qed.

(** C5: on valid proleptic Gregorian dates of the supported range,
    [julian_day_from_date] is strictly increasing in calendar order. *)
Theorem julian_day_strictly_increasing d1 m1 y1 d2 m2 y2 :
  valid_date d1 m1 y1 -> valid_date d2 m2 y2 ->
  supported_year y1 -> supported_year y2 ->
  date_lt d1 m1 y1 d2 m2 y2 ->
  julian_day_from_date d1 m1 y1 < julian_day_from_date d2 m2 y2.
Proof.
  intros Hv1 Hv2 Hy1 _ Hlt.
  apply julian_day_increasing_gregorian; try assumption.
  unfold supported_year in Hy1. lia.
Qed.

Lemma julian_day_strictly_increasing_witness :
  valid_date 31 12 1999 /\ valid_date 1 1 2000 /\
  supported_year 1999 /\ supported_year 2000 /\
  date_lt 31 12 1999 1 1 2000 /\
  julian_day_from_date 31 12 1999 < julian_day_from_date 1 1 2000.
Proof.
  assert (Hv1 : valid_date 31 12 1999)
    by (unfold valid_date; change (days_in_month 12 1999) with 31; lia).
  assert (Hv2 : valid_date 1 1 2000)
    by (unfold valid_date; change (days_in_month 1 2000) with 31; lia).
  assert (Hy1 : supported_year 1999) by (unfold supported_year; lia).
  assert (Hy2 : supported_year 2000) by (unfold supported_year; lia).
  assert (Hlt : date_lt 31 12 1999 1 1 2000) by (unfold date_lt; lia).
  repeat (split; [assumption|]).
  exact (julian_day_strictly_increasing _ _ _ _ _ _ Hv1 Hv2 Hy1 Hy2 Hlt).
Defined.

(** The month returned by [julian_day_to_date] and the year cannot both be
    zero, whatever the day number: the result is never the sentinel. *)
Lemma julian_day_to_date_month jd :
  let '(_, mo, yr) := julian_day_to_date jd in mo <> 0 \/ yr <> 0.
Proof.
  unfold julian_day_to_date.
  rewrite Z.gtb_ltb. destruct (Z.ltb_spec 2299160 jd); cbv zeta; lia.
Qed.

Lemma julian_day_to_date_not_sentinel jd : julian_day_to_date jd <> (0, 0, 0).
Proof.
  pose proof (julian_day_to_date_month jd) as H.
  destruct (julian_day_to_date jd) as [[dd mo] yr].
  intros E. injection E as _ E2 E3. lia.
Qed.

(** ** Can-chi names *)

Lemma py_index_in_range {A : Type} (l : list A) (i : Z) :
  0 <= i < Z.of_nat (List.length l) -> exists a, py_index l i = Some a.
Proof.
  intros Hi. unfold py_index.
  destruct (Z.leb_spec 0 i); [|lia].
  destruct (Z.ltb_spec i (Z.of_nat (List.length l))); [|lia].
  cbn [andb].
  destruct (nth_error l (Z.to_nat i)) as [a|] eqn:E; [eauto|].
  apply nth_error_None in E. lia.
Qed.

(** C10: [zodiac_month] has period 5 in the year: for a month in [1, 12]
    it returns a name, and the same name five years later, because the Can
    index is unchanged and the Chi name depends on the month only. *)
Theorem zodiac_month_period_5 month year :
  1 <= month <= 12 ->
  (year * 12 + month + 3) mod 10 = ((year + 5) * 12 + month + 3) mod 10 /\
  zodiac_month month (year + 5) = zodiac_month month year /\
  exists s, zodiac_month month year = Some s.
Proof.
  intros Hm.
  assert (E : ((year + 5) * 12 + month + 3) mod 10
              = (year * 12 + month + 3) mod 10).
  { replace ((year + 5) * 12 + month + 3)
      with (year * 12 + month + 3 + 6 * 10) by ring.
    apply Z.mod_add. lia. }
  split; [symmetry; exact E|].
  unfold zodiac_month. rewrite E. split; [reflexivity|].
  destruct (py_index_in_range CAN ((year * 12 + month + 3) mod 10)) as [c ->].
  { change (Z.of_nat (List.length CAN)) with 10.
    apply Z.mod_pos_bound. lia. }
  destruct (py_index_in_range CHI_MONTH month) as [h ->].
  { change (Z.of_nat (List.length CHI_MONTH)) with 13. lia. }
  eauto.
Qed.

Lemma zodiac_month_period_5_witness :
  1 <= 1 <= 12 /\
  zodiac_month 1 (2024 + 5) = zodiac_month 1 2024 /\
  exists s, zodiac_month 1 2024 = Some s.
Proof.
  assert (H : 1 <= 1 <= 12) by lia.
  split; [exact H|]. exact (proj2 (zodiac_month_period_5 1 2024 H)).
Defined.

(** ** The leap-month scan *)

Lemma leap_scan_more_fuel fuel k tz i arc r :
  leap_scan fuel k tz i arc = Some r ->
  forall extra, leap_scan (fuel + extra) k tz i arc = Some r.
Proof.
  revert i arc r. induction fuel as [|fuel IH]; intros i arc r H extra.
  - discriminate.
  - cbn [leap_scan Nat.add] in *.
    destruct (negb _); [exact H|].
    destruct (leap_scan fuel k tz (i + 1) _) as [[r' n']|] eqn:E; [|discriminate].
    rewrite (IH _ _ _ E extra). exact H.
Qed.

(** From index [i], at most [14 - i] executions of the body are needed, and
    the final index lies in [(i, 14]]. *)
Lemma leap_scan_enough fuel k tz i arc :
  1 <= i <= 13 -> 14 - i <= Z.of_nat fuel ->
  exists r n, leap_scan fuel k tz i arc = Some (r, n) /\
              i < r <= 14 /\ (1 <= n)%nat /\ Z.of_nat n <= 14 - i.
Proof.
  revert i arc. induction fuel as [|fuel IH]; intros i arc Hi Hf.
  - lia.
  - cbn [leap_scan].
    destruct (negb _) eqn:Hstop.
    + exists (i + 1), 1%nat. repeat split; lia.
    + assert (Hi' : i + 1 < 14).
      { apply negb_false_iff, andb_prop in Hstop. destruct Hstop as [_ H].
        apply Z.ltb_lt in H. exact H. }
      destruct (IH (i + 1)
                  (get_sun_longitude (get_new_moon_day (k + (i + 1)) tz) tz)
                  ltac:(lia) ltac:(lia)) as (r & n & E & Hr & Hn1 & Hn2).
      rewrite E. exists r, (S n). repeat split; lia.
Qed.

Lemma get_leap_month_offset_steps_spec a11 tz extra :
  exists off n,
    get_leap_month_offset_steps (13 + extra) a11 tz = Some (off, n) /\
    (1 <= n <= 13)%nat /\ 1 <= off <= 13 /\
    get_leap_month_offset a11 tz = off.
Proof.
  unfold get_leap_month_offset, get_leap_month_offset_steps. cbv zeta.
  set (k := int_trunc _).
  set (arc := get_sun_longitude _ tz).
  destruct (leap_scan_enough 13 k tz 1 arc ltac:(lia) ltac:(simpl; lia))
    as (r & n & E & Hr & Hn1 & Hn2).
  rewrite (leap_scan_more_fuel _ _ _ _ _ _ E extra), E.
  exists (r - 1), n. repeat split; lia.
Qed.


(** C7: for every month-11 start and time zone the scan of
    [get_leap_month_offset] terminates: thirteen executions of the loop
    body always suffice (and more fuel changes nothing), at most thirteen
    are made, and the offset returned lies in [1, 13]. *)
Theorem get_leap_month_offset_terminates a11 tz extra :
  exists off n,
    get_leap_month_offset_steps (13 + extra) a11 tz = Some (off, n) /\
    (1 <= n <= 13)%nat /\ 1 <= off <= 13 /\
    get_leap_month_offset a11 tz = off.
Proof. apply get_leap_month_offset_steps_spec. Qed.

Lemma get_leap_month_offset_range a11 tz :
  1 <= get_leap_month_offset a11 tz <= 13.
Proof.
  destruct (get_leap_month_offset_steps_spec a11 tz 0)
    as (off & n & _ & _ & Hoff & ->).
  exact Hoff.
Qed.

(** ** The sentinel of [lunar_to_solar] *)

Lemma lunar_to_solar_no_13th ld lm ly leap tz :
  has_13th_lunation lm ly tz = false ->
  lunar_to_solar ld lm ly leap tz = lunar_to_solar ld lm ly 0 tz /\
  lunar_to_solar ld lm ly leap tz <> (0, 0, 0).
Proof.
  unfold has_13th_lunation, lunar_to_solar, lunar_year_bounds.
  destruct (lm <? 11); cbv zeta; intros ->; cbv iota beta;
    (split; [reflexivity | apply julian_day_to_date_not_sentinel]).
Qed.

Lemma lunar_to_solar_13th ld lm ly leap tz :
  has_13th_lunation lm ly tz = true ->
  (lunar_to_solar ld lm ly leap tz = (0, 0, 0)
   <-> leap <> 0 /\ lm <> year_leap_month lm ly tz).
Proof.
  unfold has_13th_lunation, year_leap_month, lunar_to_solar, lunar_year_bounds.
  assert (Hmod : forall o, 1 <= o <= 13 ->
            (if o - 2 <? 0 then o - 2 + 12 else o - 2) = (o - 2) mod 12).
  { intros o Ho. destruct (Z.ltb_spec (o - 2) 0); lia. }
  destruct (lm <? 11); cbv zeta; intros ->; cbv iota beta;
    match goal with
    | |- context [get_leap_month_offset ?a tz] =>
        rewrite (Hmod _ (get_leap_month_offset_range a tz));
        set (lmo := (get_leap_month_offset a tz - 2) mod 12)
    end;
    destruct (Z.eqb_spec leap 0) as [Hl | Hl];
    destruct (Z.eqb_spec lm lmo) as [He | He]; cbn [negb andb orb];
    repeat match goal with
           | |- context [if ?c then Some _ else Some _] => destruct c
           end;
    split;
    try (intros H; exfalso; exact (julian_day_to_date_not_sentinel _ H));
    try (intros [H1 H2]; congruence);
    try (intros _; split; assumption);
    try reflexivity.
Qed.

(** C9: [lunar_to_solar] returns the sentinel exactly when the lunar year
    spans more than 365 days between its month-11 starts, the leap flag is
    nonzero and the month differs from [(leap offset - 2) mod 12]; in a
    year without a 13th lunation the flag is ignored and the result is an
    ordinary date. *)
Theorem lunar_to_solar_sentinel_iff ld lm ly leap tz :
  (lunar_to_solar ld lm ly leap tz = (0, 0, 0)
   <-> has_13th_lunation lm ly tz = true /\ leap <> 0
       /\ lm <> year_leap_month lm ly tz)
  /\ (has_13th_lunation lm ly tz = false ->
      lunar_to_solar ld lm ly leap tz = lunar_to_solar ld lm ly 0 tz /\
      lunar_to_solar ld lm ly leap tz <> (0, 0, 0)).
Proof.
  split; [|apply lunar_to_solar_no_13th].
  destruct (has_13th_lunation lm ly tz) eqn:E.
  - rewrite (lunar_to_solar_13th ld lm ly leap tz E). tauto.
  - destruct (lunar_to_solar_no_13th ld lm ly leap tz E) as [_ Hne].
    split; [intros H; contradiction | intros [H _]; discriminate].
Qed.

(** C2 (amended): in a lunar year whose month-11 starts span at most 365
    days, [lunar_to_solar] ignores the leap flag: it returns the same date
    as with the flag clear, and never the sentinel. *)
Theorem lunar_to_solar_ignores_leap_flag ld lm ly leap tz :
  has_13th_lunation lm ly tz = false ->
  lunar_to_solar ld lm ly leap tz = lunar_to_solar ld lm ly 0 tz /\
  lunar_to_solar ld lm ly leap tz <> (0, 0, 0).
Proof. apply lunar_to_solar_no_13th. Qed.

(** ** Soundness of the evaluator *)

Ltac izr :=
  repeat first [rewrite minus_IZR in * | rewrite plus_IZR in *
               | rewrite opp_IZR in *].

Lemma sdiv_div a : sdiv a = a / scale.
Proof. unfold sdiv. rewrite Z.shiftr_div_pow2 by lia. reflexivity. Qed.

Lemma scale_pos : (0 < IZR scale)%R.
Proof. apply IZR_lt. reflexivity. Qed.

Lemma floor_div_R a d :
  0 < d -> (IZR (a / d) <= IZR a / IZR d < IZR (a / d) + 1)%R.
Proof.
  intros Hd.
  assert (Hd' : (0 < IZR d)%R) by (apply IZR_lt; exact Hd).
  assert (H1 : d * (a / d) <= a < d * (a / d + 1)) by lia.
  destruct H1 as [H1 H2].
  apply IZR_le in H1. apply IZR_lt in H2.
  rewrite mult_IZR in H1, H2. rewrite plus_IZR in H2.
  split.
  - apply (Rmult_le_reg_r (IZR d)); [exact Hd'|].
    unfold Rdiv. rewrite Rmult_assoc, Rinv_l by lra. lra.
  - apply (Rmult_lt_reg_r (IZR d)); [exact Hd'|].
    unfold Rdiv. rewrite Rmult_assoc, Rinv_l by lra. lra.
Qed.

Lemma Rabs_le_bounds a b : (Rabs a <= b)%R -> (- b <= a <= b)%R.
Proof.
  intros H. pose proof (Rle_abs a) as H1. pose proof (Rle_abs (- a)) as H2.
  rewrite Rabs_Ropp in H2. lra.
Qed.

Lemma contains_bounds l h x :
  (IZR l <= x * IZR scale <= IZR h)%R -> contains (ball_of_bounds l h) x.
Proof.
  intros [H1 H2]. unfold contains, ball_of_bounds; cbn [ctr rad].
  assert (Hlh : l <= h) by (apply le_IZR; lra).
  split.
  - apply Rle_trans with (IZR l); [apply IZR_le; lia | exact H1].
  - apply Rle_trans with (IZR h); [exact H2 | apply IZR_le; lia].
Qed.

Lemma contains_Z z : contains (ball_Z z) (IZR z).
Proof.
  unfold contains, ball_Z; cbn [ctr rad].
  rewrite Z.sub_0_r, Z.add_0_r, mult_IZR. lra.
Qed.

Lemma contains_Q q : contains (ball_Q q) (Q2R q).
Proof.
  unfold contains, ball_Q; cbn [ctr rad].
  destruct (floor_div_R (Qnum q * scale) (Zpos (Qden q)) eq_refl) as [H1 H2].
  rewrite mult_IZR in H1, H2.
  rewrite minus_IZR, plus_IZR. unfold Q2R.
  replace (IZR (Qnum q) * / IZR (Zpos (Qden q)) * IZR scale)%R
    with (IZR (Qnum q) * IZR scale / IZR (Zpos (Qden q)))%R
    by (unfold Rdiv; ring).
  lra.
Qed.

Lemma contains_add a b x y :
  contains a x -> contains b y -> contains (ball_add a b) (x + y).
Proof.
  unfold contains, ball_add; cbn [ctr rad]. intros [H1 H2] [H3 H4].
  izr. lra.
Qed.

Lemma contains_sub a b x y :
  contains a x -> contains b y -> contains (ball_sub a b) (x - y).
Proof.
  unfold contains, ball_sub; cbn [ctr rad]. intros [H1 H2] [H3 H4].
  izr. lra.
Qed.

Lemma contains_opp a x : contains a x -> contains (ball_opp a) (- x).
Proof.
  unfold contains, ball_opp; cbn [ctr rad]. intros [H1 H2].
  izr. lra.
Qed.

Lemma contains_abs b x :
  contains b x ->
  (Rabs (x * IZR scale - IZR (ctr b)) <= IZR (rad b))%R /\ 0 <= rad b.
Proof.
  unfold contains. intros [H1 H2].
  rewrite minus_IZR in H1. rewrite plus_IZR in H2.
  split.
  - apply Rabs_le. lra.
  - apply le_IZR. lra.
Qed.

Lemma contains_mul a b x y :
  contains a x -> contains b y -> contains (ball_mul a b) (x * y).
Proof.
  intros Ha Hb.
  destruct (contains_abs a x Ha) as [Hx Hra].
  destruct (contains_abs b y Hb) as [Hy Hrb].
  set (X := (x * IZR scale)%R) in *. set (Y := (y * IZR scale)%R) in *.
  set (c1 := ctr a) in *. set (c2 := ctr b) in *.
  set (r1 := rad a) in *. set (r2 := rad b) in *.
  assert (HE : (Rabs (X * Y - IZR c1 * IZR c2)
                 <= IZR (Z.abs c1 * r2 + Z.abs c2 * r1 + r1 * r2))%R).
  { replace (X * Y - IZR c1 * IZR c2)%R
      with ((X - IZR c1) * (Y - IZR c2) + IZR c1 * (Y - IZR c2)
            + IZR c2 * (X - IZR c1))%R by ring.
    rewrite !plus_IZR, !mult_IZR, !abs_IZR.
    eapply Rle_trans; [apply Rabs_triang|].
    eapply Rle_trans; [apply Rplus_le_compat_r; apply Rabs_triang|].
    rewrite !Rabs_mult.
    assert (H0 : (0 <= Rabs (X - IZR c1))%R) by apply Rabs_pos.
    assert (H0' : (0 <= Rabs (Y - IZR c2))%R) by apply Rabs_pos.
    assert (Hc1 : (0 <= Rabs (IZR c1))%R) by apply Rabs_pos.
    assert (Hc2 : (0 <= Rabs (IZR c2))%R) by apply Rabs_pos.
    assert (P1 : (Rabs (X - IZR c1) * Rabs (Y - IZR c2) <= IZR r1 * IZR r2)%R)
      by (apply Rmult_le_compat; assumption).
    assert (P2 : (Rabs (IZR c1) * Rabs (Y - IZR c2) <= Rabs (IZR c1) * IZR r2)%R)
      by (apply Rmult_le_compat_l; assumption).
    assert (P3 : (Rabs (IZR c2) * Rabs (X - IZR c1) <= Rabs (IZR c2) * IZR r1)%R)
      by (apply Rmult_le_compat_l; assumption).
    lra. }
  set (E := Z.abs c1 * r2 + Z.abs c2 * r1 + r1 * r2) in *.
  pose proof scale_pos as HS.
  destruct (floor_div_R (c1 * c2) scale eq_refl) as [Hc Hc'].
  destruct (floor_div_R E scale eq_refl) as [He He'].
  rewrite mult_IZR in Hc, Hc'.
  unfold contains, ball_mul. rewrite !sdiv_div. fold c1 c2 r1 r2 E.
  cbn [ctr rad].
  rewrite minus_IZR, !plus_IZR.
  replace (x * y * IZR scale)%R with (X * Y / IZR scale)%R
    by (unfold X, Y; field; lra).
  assert (HD : (Rabs (X * Y / IZR scale - IZR c1 * IZR c2 / IZR scale)
                 <= IZR E / IZR scale)%R).
  { replace (X * Y / IZR scale - IZR c1 * IZR c2 / IZR scale)%R
      with ((X * Y - IZR c1 * IZR c2) * / IZR scale)%R by (field; lra).
    rewrite Rabs_mult, (Rabs_pos_eq (/ IZR scale))
      by (left; apply Rinv_0_lt_compat; exact HS).
    apply Rmult_le_compat_r;
      [left; apply Rinv_0_lt_compat; exact HS | exact HE]. }
  apply Rabs_le_bounds in HD. lra.
Qed.

Lemma some_inj {A : Type} (a b : A) : Some a = Some b -> a = b.
Proof. intros H. injection H as ->. reflexivity. Qed.

Lemma contains_inv a b x :
  ball_inv a = Some b -> contains a x -> contains b (/ x).
Proof.
  unfold ball_inv.
  destruct (Z.ltb_spec 0 (ctr a - rad a)) as [Hlo|]; [|discriminate].
  intros Hb [H1 H2]. apply some_inj in Hb. subst b.
  pose proof scale_pos as HS.
  assert (Hlo' : (0 < IZR (ctr a - rad a))%R) by (apply IZR_lt; exact Hlo).
  assert (Hhi : 0 < ctr a + rad a) by (apply lt_IZR; lra).
  assert (Hhi' : (0 < IZR (ctr a + rad a))%R) by (apply IZR_lt; exact Hhi).
  assert (Hx : (0 < x)%R).
  { apply (Rmult_lt_reg_r (IZR scale)); [exact HS|]. lra. }
  apply contains_bounds.
  destruct (floor_div_R (scale * scale) (ctr a + rad a) Hhi) as [Hl _].
  destruct (floor_div_R (scale * scale) (ctr a - rad a) Hlo) as [_ Hh].
  rewrite mult_IZR in Hl, Hh. rewrite plus_IZR.
  replace (/ x * IZR scale)%R with (IZR scale * IZR scale / (x * IZR scale))%R
    by (field; lra).
  set (X := (x * IZR scale)%R) in *.
  assert (HX : (0 < X)%R) by lra.
  split.
  - eapply Rle_trans; [exact Hl|].
    unfold Rdiv. apply Rmult_le_compat_l; [nra|].
    apply Rinv_le_contravar; lra.
  - eapply Rle_trans; [|left; exact Hh].
    unfold Rdiv. apply Rmult_le_compat_l; [nra|].
    apply Rinv_le_contravar; lra.
Qed.

(** *** The enclosure of [PI] *)

Lemma Q2R_qpow q n : Q2R (qpow q n) = (Q2R q ^ n)%R.
Proof.
  induction n as [|n IH]; simpl.
  - unfold Q2R; simpl. lra.
  - rewrite Q2R_mult, IH. reflexivity.
Qed.

Lemma Q2R_inject_Z z : Q2R (inject_Z z) = IZR z.
Proof. unfold Q2R, inject_Z; simpl. lra. Qed.

Lemma Q2R_qratan_seq x n : Q2R (qratan_seq x n) = Ratan_seq (Q2R x) n.
Proof.
  unfold qratan_seq, Ratan_seq.
  rewrite Q2R_div.
  - rewrite Q2R_qpow, Q2R_inject_Z, INR_IZR_INZ. reflexivity.
  - intros H. unfold Qeq in H. simpl in H. lia.
Qed.

Lemma Q2R_qpi_tg n : Q2R (qpi_tg n) = PI_2_3_7_tg n.
Proof.
  unfold qpi_tg, PI_2_3_7_tg.
  rewrite Q2R_plus, Q2R_mult, !Q2R_qratan_seq.
  replace (Q2R (1 # 3)) with (/ 3)%R by (unfold Q2R; simpl; lra).
  replace (Q2R (1 # 7)) with (/ 7)%R by (unfold Q2R; simpl; lra).
  replace (Q2R 2) with 2%R by (unfold Q2R; simpl; lra).
  reflexivity.
Qed.

Lemma Q2R_alt_term n :
  Q2R (qpow (-1) n * qpi_tg n) = tg_alt PI_2_3_7_tg n.
Proof.
  unfold tg_alt. rewrite Q2R_mult, Q2R_qpow, Q2R_qpi_tg.
  replace (Q2R (-1)) with (-1)%R by (unfold Q2R; simpl; lra).
  reflexivity.
Qed.

Lemma Q2R_qpi_sum n : Q2R (qpi_sum n) = sum_f_R0 (tg_alt PI_2_3_7_tg) n.
Proof.
  induction n as [|n IH].
  - apply Q2R_alt_term.
  - cbn [qpi_sum sum_f_R0].
    rewrite (Qeq_eqR _ _ (Qred_correct _)), Q2R_plus, IH, Q2R_alt_term.
    reflexivity.
Qed.

Lemma Q2R_scaled_floor q :
  (IZR (4 * Qnum q * scale / Zpos (Qden q)) <= 4 * Q2R q * IZR scale
   < IZR (4 * Qnum q * scale / Zpos (Qden q)) + 1)%R.
Proof.
  destruct (floor_div_R (4 * Qnum q * scale) (Zpos (Qden q)) eq_refl)
    as [H1 H2].
  rewrite !mult_IZR in H1, H2. unfold Q2R.
  replace (4 * (IZR (Qnum q) * / IZR (Zpos (Qden q))) * IZR scale)%R
    with (4 * IZR (Qnum q) * IZR scale / IZR (Zpos (Qden q)))%R
    by (unfold Rdiv; ring).
  lra.
Qed.

Lemma pi_enclosure : (IZR pi_lo <= PI * IZR scale <= IZR pi_hi)%R.
Proof.
  pose proof scale_pos as HS.
  destruct (PI_2_3_7_ineq 12) as [Hlo Hhi].
  change (S (2 * 12)) with 25%nat in Hlo.
  change (2 * 12)%nat with 24%nat in Hhi.
  rewrite <- Q2R_qpi_sum in Hlo, Hhi.
  destruct (Q2R_scaled_floor (qpi_sum 25)) as [L1 _].
  destruct (Q2R_scaled_floor (qpi_sum 24)) as [_ L2].
  assert (E1 : pi_lo
               = 4 * Qnum (qpi_sum 25) * scale / Zpos (Qden (qpi_sum 25)))
    by (vm_compute; reflexivity).
  assert (E2 : pi_hi
               = 4 * Qnum (qpi_sum 24) * scale / Zpos (Qden (qpi_sum 24)) + 1)
    by (vm_compute; reflexivity).
  rewrite E1, E2, plus_IZR.
  split.
  - eapply Rle_trans; [exact L1|]. apply Rmult_le_compat_r; lra.
  - eapply Rle_trans; [|left; exact L2]. apply Rmult_le_compat_r; lra.
Qed.

Lemma contains_pi : contains ball_pi PI.
Proof. apply contains_bounds. exact pi_enclosure. Qed.

(** *** The enclosure of [sin] *)

Lemma zfact_fact n : 0 < zfact n /\ IZR (zfact n) = INR (fact n).
Proof.
  induction n as [|n [IH1 IH2]].
  - split; [reflexivity | simpl; lra].
  - change (zfact (S n)) with (Z.of_nat (S n) * zfact n).
    split; [lia|].
    rewrite mult_IZR, IH2, <- INR_IZR_INZ, <- mult_INR. reflexivity.
Qed.

Lemma contains_sin_term p x i :
  contains p (x ^ (2 * i + 1)) -> contains (ball_sin_term p i) (sin_term x i).
Proof.
  intros H. unfold ball_sin_term, sin_term.
  apply contains_mul.
  - rewrite pow_IZR. apply contains_Z.
  - unfold Rdiv. apply contains_mul; [exact H|].
    destruct (zfact_fact (2 * i + 1)) as [Hf1 Hf2].
    replace (/ INR (fact (2 * i + 1)))%R
      with (Q2R (1 # Z.to_pos (zfact (2 * i + 1)))).
    + apply contains_Q.
    + unfold Q2R. cbn [Qnum Qden]. rewrite Z2Pos.id by exact Hf1.
      rewrite Hf2. lra.
Qed.

Lemma pow_step x i : (x ^ (2 * S i + 1) = (x * x) * x ^ (2 * i + 1))%R.
Proof.
  replace (2 * S i + 1)%nat with (S (S (2 * i + 1))) by lia. simpl. ring.
Qed.

Lemma contains_sin_loop a2 x fuel :
  contains a2 (x * x) ->
  forall p acc i,
    contains p (x ^ (2 * i + 1)) ->
    contains acc (sum_f_R0 (sin_term x) i) ->
    contains (fst (ball_sin_loop a2 p acc (S i) fuel))
             (sum_f_R0 (sin_term x) (i + fuel)) /\
    contains (snd (ball_sin_loop a2 p acc (S i) fuel))
             (x ^ (2 * (i + fuel) + 1)).
Proof.
  intros Ha2. induction fuel as [|f IH]; intros p acc i Hp Hacc;
    cbn [ball_sin_loop].
  - rewrite Nat.add_0_r. split; assumption.
  - replace (i + S f)%nat with (S i + f)%nat by lia.
    assert (Hp' : contains (ball_mul a2 p) (x ^ (2 * S i + 1))).
    { rewrite pow_step. apply contains_mul; assumption. }
    apply IH; [exact Hp'|].
    cbn [sum_f_R0]. apply contains_add; [exact Hacc|].
    apply contains_sin_term. exact Hp'.
Qed.

Lemma contains_sin_taylor y x :
  contains y x -> (0 <= x <= 4)%R -> contains (ball_sin_taylor y) (sin x).
Proof.
  intros Hy [H0 H4].
  destruct (pre_sin_bound x 5 H0 H4) as [Hl Hu].
  change (2 * 5 + 1)%nat with 11%nat in Hl.
  change (2 * (5 + 1))%nat with 12%nat in Hu.
  assert (Ha2 : contains (ball_mul y y) (x * x))
    by (apply contains_mul; assumption).
  assert (Hp0 : contains y (x ^ (2 * 0 + 1)))
    by (simpl; rewrite Rmult_1_r; exact Hy).
  assert (Hacc0 : contains (ball_sin_term y 0) (sum_f_R0 (sin_term x) 0))
    by (apply contains_sin_term; exact Hp0).
  destruct (contains_sin_loop (ball_mul y y) x 11 Ha2 y (ball_sin_term y 0)
              0%nat Hp0 Hacc0) as [Cl Cp].
  unfold ball_sin_taylor.
  destruct (ball_sin_loop (ball_mul y y) y (ball_sin_term y 0) 1 11) as [l p].
  cbn [fst snd] in Cl, Cp. change (0 + 11)%nat with 11%nat in Cl, Cp.
  assert (Cu : contains
                 (ball_add l (ball_sin_term (ball_mul (ball_mul y y) p) 12))
                 (sin_approx x 12)).
  { unfold sin_approx. change 12%nat with (S 11). cbn [sum_f_R0].
    apply contains_add; [exact Cl|]. apply contains_sin_term.
    rewrite pow_step. apply contains_mul; assumption. }
  apply contains_bounds.
  pose proof scale_pos as HS.
  destruct Cl as [Cl _]. destruct Cu as [_ Cu]. unfold sin_approx in Hl.
  split.
  - eapply Rle_trans; [exact Cl|]. apply Rmult_le_compat_r; lra.
  - eapply Rle_trans; [|exact Cu]. apply Rmult_le_compat_r; lra.
Qed.

Lemma sin_period_Z x q : sin (x - 2 * IZR q * PI) = sin x.
Proof.
  destruct (Z_le_gt_dec 0 q) as [Hq | Hq].
  - rewrite <- (sin_period (x - 2 * IZR q * PI) (Z.to_nat q)).
    f_equal. rewrite INR_IZR_INZ, Z2Nat.id by exact Hq. ring.
  - rewrite <- (sin_period x (Z.to_nat (- q))).
    f_equal. rewrite INR_IZR_INZ, Z2Nat.id by lia. rewrite opp_IZR. ring.
Qed.

Lemma contains_reduce b x q :
  contains b x -> contains (ball_reduce b q) (x - 2 * IZR q * PI).
Proof.
  intros [H1 H2]. destruct pi_enclosure as [P1 P2].
  unfold contains, ball_reduce; cbn [ctr rad].
  replace ((x - 2 * IZR q * PI) * IZR scale)%R
    with (x * IZR scale - 2 * IZR q * (PI * IZR scale))%R by ring.
  set (X := (x * IZR scale)%R) in *. set (P := (PI * IZR scale)%R) in *.
  destruct (Z_le_gt_dec 0 q) as [Hq | Hq].
  - rewrite Z.abs_eq by exact Hq. apply IZR_le in Hq.
    izr. rewrite !mult_IZR. izr. nra.
  - rewrite Z.abs_neq by lia.
    assert (Hq' : (IZR q <= 0)%R) by (apply IZR_le; lia).
    izr. rewrite !mult_IZR. izr. nra.
Qed.

Lemma contains_sin b r x :
  ball_sin b = Some r -> contains b x -> contains r (sin x).
Proof.
  unfold ball_sin. intros Hr Hb.
  set (q := (ctr b + pi_lo) / (2 * pi_lo)) in *.
  pose proof (contains_reduce b x q Hb) as Hy.
  rewrite <- (sin_period_Z x q).
  set (y := ball_reduce b q) in *. set (t := (x - 2 * IZR q * PI)%R) in *.
  pose proof scale_pos as HS.
  assert (H4 : IZR (4 * scale) = (4 * IZR scale)%R)
    by (rewrite mult_IZR; reflexivity).
  destruct Hy as [Y1 Y2].
  destruct (Z.leb_spec 0 (ctr y - rad y)) as [Hlo | Hlo].
  - destruct (Z.leb_spec (ctr y + rad y) (4 * scale)) as [Hhi | Hhi];
      [|discriminate].
    apply some_inj in Hr. subst r.
    apply contains_sin_taylor; [split; assumption|].
    apply IZR_le in Hlo, Hhi. rewrite H4 in Hhi. split; nra.
  - destruct (Z.leb_spec (ctr y + rad y) 0) as [Hhi | Hhi]; [|discriminate].
    destruct (Z.leb_spec (- (4 * scale)) (ctr y - rad y)) as [Hlo' | Hlo'];
      [|discriminate].
    apply some_inj in Hr. subst r.
    replace (sin t) with (- sin (- t))%R by (rewrite sin_neg; ring).
    apply contains_opp. apply contains_sin_taylor.
    + apply contains_opp. split; assumption.
    + apply IZR_le in Hhi, Hlo'. rewrite opp_IZR, H4 in Hlo'. split; nra.
Qed.

(** *** Truncation *)

Lemma int_trunc_nonneg x n :
  (IZR n <= x < IZR n + 1)%R -> 0 <= n -> int_trunc x = n.
Proof.
  intros [H1 H2] Hn. apply IZR_le in Hn. unfold int_trunc.
  destruct (Rle_dec 0 x) as [_|Hx]; [|lra].
  unfold Int_part.
  rewrite <- (up_tech x n); [lia | exact H1 | rewrite plus_IZR; exact H2].
Qed.

Lemma int_trunc_nonpos x n :
  (IZR n - 1 < x <= IZR n)%R -> n <= 0 -> int_trunc x = n.
Proof.
  intros [H1 H2] Hn. apply IZR_le in Hn. unfold int_trunc.
  destruct (Rle_dec 0 x) as [Hx|Hx].
  - assert (x = 0%R) by lra. assert (n = 0) by (apply eq_IZR; lra). subst.
    unfold Int_part.
    rewrite <- (up_tech 0 0); [reflexivity | lra | simpl; lra].
  - unfold Int_part. rewrite <- (up_tech (- x) (- n)).
    + lia.
    + rewrite opp_IZR. lra.
    + rewrite plus_IZR, opp_IZR. lra.
Qed.

Lemma int_trunc_IZR z : int_trunc (IZR z) = z.
Proof.
  destruct (Z_le_gt_dec 0 z).
  - apply int_trunc_nonneg; [lra | assumption].
  - apply int_trunc_nonpos; [lra | lia].
Qed.

(** [int(a / b)] on integers is the truncated quotient. *)
Lemma int_trunc_IZR_div a b :
  0 < b -> int_trunc (IZR a / IZR b) = Z.quot a b.
Proof.
  intros Hb. assert (Hb' : (0 < IZR b)%R) by (apply IZR_lt; exact Hb).
  destruct (Z_le_gt_dec 0 a) as [Ha | Ha].
  - rewrite Z.quot_div_nonneg by lia.
    apply int_trunc_nonneg; [apply floor_div_R; exact Hb|].
    apply Z.div_pos; lia.
  - replace (Z.quot a b) with (- ((- a) / b)).
    + destruct (floor_div_R (- a) b Hb) as [H1 H2].
      rewrite opp_IZR in H1, H2.
      replace (- IZR a / IZR b)%R with (- (IZR a / IZR b))%R in H1, H2
        by (field; lra).
      apply int_trunc_nonpos.
      * rewrite opp_IZR. lra.
      * assert (0 <= - a / b) by (apply Z.div_pos; lia). lia.
    + rewrite <- (Z.quot_div_nonneg (- a) b) by lia.
      rewrite Z.quot_opp_l by lia. lia.
Qed.

Lemma ball_trunc_sound b x n :
  ball_trunc b = Some n -> contains b x -> int_trunc x = n.
Proof.
  unfold ball_trunc, contains. intros Hn [H1 H2].
  pose proof scale_pos as HS.
  set (lo := ctr b - rad b) in *. set (hi := ctr b + rad b) in *.
  assert (Hdiv : forall a, (IZR (a / scale) * IZR scale <= IZR a)%R).
  { intros a. destruct (floor_div_R a scale eq_refl) as [D _].
    apply (Rmult_le_compat_r (IZR scale)) in D; [|lra].
    unfold Rdiv in D. rewrite Rmult_assoc, Rinv_l in D by lra. lra. }
  destruct (Z.leb_spec 0 lo) as [Hlo | Hlo].
  - destruct (Z.ltb_spec hi ((lo / scale + 1) * scale)) as [Hhi | Hhi];
      [|discriminate].
    apply some_inj in Hn. subst n. apply int_trunc_nonneg.
    + apply IZR_lt in Hhi. rewrite mult_IZR, plus_IZR in Hhi.
      pose proof (Hdiv lo). split.
      * apply (Rmult_le_reg_r (IZR scale)); [exact HS|]. lra.
      * apply (Rmult_lt_reg_r (IZR scale)); [exact HS|]. lra.
    + apply Z.div_pos; [exact Hlo | reflexivity].
  - destruct (Z.leb_spec hi 0) as [Hhi | Hhi].
    + destruct (Z.ltb_spec (- lo) ((- hi / scale + 1) * scale)) as [Hl | Hl];
        [|discriminate].
      apply some_inj in Hn. subst n. apply int_trunc_nonpos.
      * apply IZR_lt in Hl. rewrite mult_IZR, plus_IZR, opp_IZR in Hl.
        pose proof (Hdiv (- hi)) as Hd. rewrite (opp_IZR hi) in Hd.
        rewrite opp_IZR. split.
        -- apply (Rmult_lt_reg_r (IZR scale)); [exact HS|]. lra.
        -- apply (Rmult_le_reg_r (IZR scale)); [exact HS|]. lra.
      * assert (0 <= - hi / scale) by (apply Z.div_pos; [lia | reflexivity]).
        lia.
    + destruct (Z.ltb_spec (- scale) lo) as [Hl | Hl]; [|discriminate].
      destruct (Z.ltb_spec hi scale) as [Hh | Hh]; [|discriminate].
      apply some_inj in Hn. subst n. apply IZR_lt in Hl, Hh.
      rewrite opp_IZR in Hl.
      destruct (Rle_dec 0 x) as [Hx | Hx].
      * apply int_trunc_nonneg; [|lia]. split; [exact Hx|].
        apply (Rmult_lt_reg_r (IZR scale)); [exact HS|]. lra.
      * apply int_trunc_nonpos; [|lia]. split; [|lra].
        apply (Rmult_lt_reg_r (IZR scale)); [exact HS|]. lra.
Qed.

(** *** Expressions *)

Lemma obind_some {A B : Type} (o : option A) (f : A -> option B) b :
  obind o f = Some b -> exists a, o = Some a /\ f a = Some b.
Proof. destruct o as [a|]; simpl; [eauto | discriminate]. Qed.

Ltac obind_inv H :=
  let a := fresh "v" in
  let Ha := fresh "Hv" in
  apply obind_some in H; destruct H as (a & Ha & H).

Theorem approx_sound e : forall b, approx e = Some b -> contains b (denote e).
Proof.
  induction e as [z|q| |a IHa b0 IHb|a IHa b0 IHb|a IHa b0 IHb|a IHa b0 IHb
                  |a IHa|a IHa|a IHa|a IHa b0 IHb x IHx y IHy];
    intros b H; cbn [approx denote] in *.
  - apply some_inj in H. subst b. apply contains_Z.
  - apply some_inj in H. subst b. apply contains_Q.
  - apply some_inj in H. subst b. apply contains_pi.
  - obind_inv H. obind_inv H. apply some_inj in H. subst b.
    apply contains_add; auto.
  - obind_inv H. obind_inv H. apply some_inj in H. subst b.
    apply contains_sub; auto.
  - obind_inv H. obind_inv H. apply some_inj in H. subst b.
    apply contains_mul; auto.
  - obind_inv H. obind_inv H. obind_inv H. apply some_inj in H. subst b.
    unfold Rdiv. apply contains_mul; [auto|]. eapply contains_inv; eauto.
  - obind_inv H. apply some_inj in H. subst b. apply contains_opp; auto.
  - obind_inv H. eapply contains_sin; eauto.
  - obind_inv H. obind_inv H. apply some_inj in H. subst b.
    rewrite (ball_trunc_sound _ _ _ Hv0 (IHa _ Hv)). apply contains_Z.
  - obind_inv H. obind_inv H.
    specialize (IHa _ Hv). specialize (IHb _ Hv0).
    destruct IHa as [A1 A2]. destruct IHb as [B1 B2].
    pose proof scale_pos as HS.
    destruct (Z.ltb_spec (ctr v + rad v) (ctr v0 - rad v0)) as [Hlt | Hlt].
    + apply IZR_lt in Hlt.
      destruct (Rlt_dec (denote a) (denote b0)) as [_|Hn]; [auto|].
      exfalso. apply Hn.
      apply (Rmult_lt_reg_r (IZR scale)); [exact HS|]. lra.
    + destruct (Z.leb_spec (ctr v0 + rad v0) (ctr v - rad v)) as [Hge | Hge];
        [|discriminate].
      apply IZR_le in Hge.
      destruct (Rlt_dec (denote a) (denote b0)) as [Hl|_]; [|auto].
      exfalso. apply (Rmult_lt_compat_r (IZR scale)) in Hl; [|exact HS]. lra.
Qed.

Theorem eval_trunc_sound e n :
  eval_trunc e = Some n -> int_trunc (denote e) = n.
Proof.
  unfold eval_trunc. intros H. obind_inv H.
  eapply ball_trunc_sound; [exact H | apply approx_sound; exact Hv].
Qed.

Lemma approx_negative e b :
  approx e = Some b -> ctr b + rad b < 0 -> (denote e < 0)%R.
Proof.
  intros H Hneg. destruct (approx_sound e b H) as [_ H2].
  apply IZR_lt in Hneg. pose proof scale_pos as HS.
  apply (Rmult_lt_reg_r (IZR scale)); [exact HS|]. lra.
Qed.

(** *** The expressions denote the source's formulas *)

Lemma new_moon_expr_denote k : denote (new_moon_expr k) = new_moon (denote k).
Proof. reflexivity. Qed.

Lemma sun_longitude_expr_denote j :
  denote (sun_longitude_expr j) = sun_longitude (denote j).
Proof. reflexivity. Qed.

Lemma get_new_moon_day_expr_denote k tz :
  denote (get_new_moon_day_expr k tz)
  = (new_moon (IZR k) + 0.5 + IZR tz / 24)%R.
Proof.
  unfold get_new_moon_day_expr. cbn [denote].
  rewrite new_moon_expr_denote. reflexivity.
Qed.

Lemma get_sun_longitude_expr_denote dn tz :
  denote (get_sun_longitude_expr dn tz)
  = (sun_longitude (IZR dn - 0.5 - IZR tz / 24) / PI * 6)%R.
Proof.
  unfold get_sun_longitude_expr. cbn [denote].
  rewrite sun_longitude_expr_denote. reflexivity.
Qed.

Lemma get_new_moon_day_eval_sound k tz n :
  get_new_moon_day_eval k tz = Some n -> get_new_moon_day k (IZR tz) = n.
Proof.
  unfold get_new_moon_day_eval, get_new_moon_day. intros H.
  rewrite <- get_new_moon_day_expr_denote.
  apply eval_trunc_sound. exact H.
Qed.

Lemma get_sun_longitude_eval_sound dn tz n :
  get_sun_longitude_eval dn tz = Some n -> get_sun_longitude dn (IZR tz) = n.
Proof.
  unfold get_sun_longitude_eval, get_sun_longitude. intros H.
  rewrite <- get_sun_longitude_expr_denote.
  apply eval_trunc_sound. exact H.
Qed.

(** ** The mirrors agree with the functions they evaluate *)

Ltac obind_as H x Hx :=
  apply obind_some in H; destruct H as (x & Hx & H).

Lemma month_11_index_sound yy k :
  eval_trunc (month_11_index_expr yy) = Some k ->
  int_trunc ((IZR (julian_day_from_date 31 12 yy) - 2415021) / 29.530588853)
  = k.
Proof. intros H. exact (eval_trunc_sound _ _ H). Qed.

Lemma leap_index_sound a11 k :
  eval_trunc (leap_index_expr a11) = Some k ->
  int_trunc ((IZR a11 - 2415021.076998695) / 29.530588853 + 0.5) = k.
Proof. intros H. exact (eval_trunc_sound _ _ H). Qed.

Lemma day_index_sound dn k :
  eval_trunc (day_index_expr dn) = Some k ->
  int_trunc ((IZR dn - 2415021.076998695) / 29.530588853) = k.
Proof. intros H. exact (eval_trunc_sound _ _ H). Qed.

Lemma base_index_sound a11 k :
  eval_trunc (base_index_expr a11) = Some k ->
  int_trunc (0.5 + (IZR a11 - 2415021.076998695) / 29.530588853) = k.
Proof. intros H. exact (eval_trunc_sound _ _ H). Qed.

Lemma get_lunar_month_11_eval_sound yy tz n :
  get_lunar_month_11_eval yy tz = Some n ->
  get_lunar_month_11 yy (IZR tz) = n.
Proof.
  unfold get_lunar_month_11_eval, get_lunar_month_11. intros H.
  obind_as H k Hk. obind_as H lunar_month Hm. obind_as H sun_long Hs.
  cbv zeta.
  rewrite (month_11_index_sound _ _ Hk).
  rewrite (get_new_moon_day_eval_sound _ _ _ Hm).
  rewrite (get_sun_longitude_eval_sound _ _ _ Hs).
  destruct (sun_long >=? 9).
  - apply get_new_moon_day_eval_sound. exact H.
  - apply some_inj in H. exact H.
Qed.

Lemma sector_at_new_moon_eval_sound k tz s :
  sector_at_new_moon_eval k tz = Some s ->
  get_sun_longitude (get_new_moon_day k (IZR tz)) (IZR tz) = s.
Proof.
  unfold sector_at_new_moon_eval. intros H. obind_as H d Hd.
  rewrite (get_new_moon_day_eval_sound _ _ _ Hd).
  apply get_sun_longitude_eval_sound. exact H.
Qed.

Lemma leap_scan_eval_sound fuel k tz :
  forall i arc r,
    leap_scan_eval fuel k tz i arc = Some r ->
    leap_scan fuel k (IZR tz) i arc = Some r.
Proof.
  induction fuel as [|fuel IH]; intros i arc r H; cbn [leap_scan_eval leap_scan] in *.
  - discriminate.
  - obind_as H arc' Harc.
    rewrite (sector_at_new_moon_eval_sound _ _ _ Harc).
    destruct (negb _); [exact H|].
    destruct (leap_scan_eval fuel k tz (i + 1) arc') as [[r' n']|] eqn:E;
      [|discriminate].
    rewrite (IH _ _ _ E). exact H.
Qed.

Lemma get_leap_month_offset_eval_sound a11 tz off :
  get_leap_month_offset_eval a11 tz = Some off ->
  get_leap_month_offset a11 (IZR tz) = off.
Proof.
  unfold get_leap_month_offset_eval, get_leap_month_offset,
    get_leap_month_offset_steps.
  intros H. obind_as H k Hk. obind_as H arc Harc.
  cbv zeta.
  rewrite (leap_index_sound _ _ Hk).
  rewrite (sector_at_new_moon_eval_sound _ _ _ Harc).
  destruct (leap_scan_eval 13 k tz 1 arc) as [[i n]|] eqn:E; [|discriminate].
  rewrite (leap_scan_eval_sound _ _ _ _ _ _ E).
  apply some_inj in H. exact H.
Qed.

Lemma solar_to_lunar_eval_sound dd mm yy tz r :
  solar_to_lunar_eval dd mm yy tz = Some r ->
  solar_to_lunar dd mm yy (IZR tz) = r.
Proof.
  unfold solar_to_lunar_eval, solar_to_lunar. cbv zeta.
  set (dn := julian_day_from_date dd mm yy).
  intros H.
  obind_as H k Hk. rewrite (day_index_sound _ _ Hk).
  obind_as H ms0 Hms0. rewrite (get_new_moon_day_eval_sound _ _ _ Hms0).
  obind_as H ms Hms.
  assert (Hms' : (if ms0 >? dn then get_new_moon_day k (IZR tz) else ms0) = ms).
  { destruct (ms0 >? dn).
    - apply get_new_moon_day_eval_sound. exact Hms.
    - apply some_inj in Hms. exact Hms. }
  rewrite Hms'. clear Hms' Hms.
  obind_as H c11 Hc11. rewrite (get_lunar_month_11_eval_sound _ _ _ Hc11).
  obind_as H t Ht. destruct t as [[ly a11] b11].
  assert (Hbr : (if c11 >=? ms
                 then (yy, get_lunar_month_11 (yy - 1) (IZR tz), c11)
                 else (yy + 1, c11, get_lunar_month_11 (yy + 1) (IZR tz)))
                = (ly, a11, b11)).
  { destruct (c11 >=? ms); obind_as Ht w Hw;
      rewrite (get_lunar_month_11_eval_sound _ _ _ Hw);
      apply some_inj in Ht; exact Ht. }
  rewrite Hbr. clear Hbr Ht. cbv iota beta.
  rewrite (int_trunc_IZR_div _ 29 eq_refl).
  obind_as H p Hp. destruct p as [lmth lp].
  assert (Hlp : (if b11 - a11 >? 365
                 then (if Z.quot (ms - a11) 29 >=? get_leap_month_offset a11 (IZR tz)
                       then Z.quot (ms - a11) 29 + 10
                       else Z.quot (ms - a11) 29 + 11,
                       if Z.quot (ms - a11) 29 =? get_leap_month_offset a11 (IZR tz)
                       then 1 else 0)
                 else (Z.quot (ms - a11) 29 + 11, 0))
                = (lmth, lp)).
  { destruct (b11 - a11 >? 365).
    - obind_as Hp lo Hlo. rewrite (get_leap_month_offset_eval_sound _ _ _ Hlo).
      apply some_inj in Hp. exact Hp.
    - apply some_inj in Hp. exact Hp. }
  rewrite Hlp. cbv iota beta.
  apply some_inj in H. exact H.
Qed.

Lemma lunar_year_bounds_eval_sound lm ly tz ab :
  lunar_year_bounds_eval lm ly tz = Some ab ->
  lunar_year_bounds lm ly (IZR tz) = ab.
Proof.
  unfold lunar_year_bounds_eval, lunar_year_bounds. intros H.
  destruct (lm <? 11); obind_as H a Ha; obind_as H b Hb;
    rewrite (get_lunar_month_11_eval_sound _ _ _ Ha),
            (get_lunar_month_11_eval_sound _ _ _ Hb);
    apply some_inj in H; exact H.
Qed.

Lemma lunar_to_solar_unfold ld lm ly leap tz :
  lunar_to_solar ld lm ly leap tz =
  let '(a11, b11) := lunar_year_bounds lm ly tz in
  let k := int_trunc (0.5 + (IZR a11 - 2415021.076998695) / 29.530588853) in
  let off := lm - 11 in
  let off := if off <? 0 then off + 12 else off in
  let off_or_invalid : option Z :=
    if b11 - a11 >? 365 then
      let leap_off := get_leap_month_offset a11 tz in
      let leap_month := leap_off - 2 in
      let leap_month := if leap_month <? 0 then leap_month + 12 else leap_month in
      if negb (leap =? 0) && negb (lm =? leap_month) then None
      else if negb (leap =? 0) || (off >=? leap_off) then Some (off + 1)
           else Some off
    else Some off in
  match off_or_invalid with
  | None => (0, 0, 0)
  | Some off =>
      let month_start := get_new_moon_day (k + off) tz in
      julian_day_to_date (month_start + ld - 1)
  end.
Proof. reflexivity. Qed.

Lemma lunar_to_solar_eval_sound ld lm ly leap tz r :
  lunar_to_solar_eval ld lm ly leap tz = Some r ->
  lunar_to_solar ld lm ly leap (IZR tz) = r.
Proof.
  rewrite lunar_to_solar_unfold. unfold lunar_to_solar_eval. intros H.
  obind_as H ab Hab. rewrite (lunar_year_bounds_eval_sound _ _ _ _ Hab).
  destruct ab as [a11 b11]. cbv zeta.
  obind_as H k Hk. rewrite (base_index_sound _ _ Hk).
  obind_as H oi Hoi.
  set (off := if lm - 11 <? 0 then lm - 11 + 12 else lm - 11) in *.
  assert (Hoff :
    (if b11 - a11 >? 365
     then
       if negb (leap =? 0)
          && negb (lm =? (if get_leap_month_offset a11 (IZR tz) - 2 <? 0
                          then get_leap_month_offset a11 (IZR tz) - 2 + 12
                          else get_leap_month_offset a11 (IZR tz) - 2))
       then None
       else if negb (leap =? 0) || (off >=? get_leap_month_offset a11 (IZR tz))
            then Some (off + 1) else Some off
     else Some off) = oi).
  { destruct (b11 - a11 >? 365).
    - obind_as Hoi lo Hlo. rewrite (get_leap_month_offset_eval_sound _ _ _ Hlo).
      cbv zeta in Hoi.
      destruct (negb (leap =? 0) && negb (lm =? _));
        [apply some_inj in Hoi; exact Hoi|].
      destruct (negb (leap =? 0) || (off >=? lo));
        apply some_inj in Hoi; exact Hoi.
    - apply some_inj in Hoi. exact Hoi. }
  rewrite Hoff. clear Hoff Hoi.
  destruct oi as [o|].
  - obind_as H ms Hms. rewrite (get_new_moon_day_eval_sound _ _ _ Hms).
    apply some_inj in H. exact H.
  - apply some_inj in H. exact H.
Qed.

(** ** Concrete dates, time zone 7 *)

Local Open Scope R_scope.

(** C8: the 2024 Lunar New Year, forward and back. *)
Theorem lunar_new_year_2024 :
  solar_to_lunar 10 2 2024 7 = (1, 1, 2024, 0)%Z /\
  lunar_to_solar 1 1 2024 0 7 = (10, 2, 2024)%Z.
Proof.
  split.
  - apply (solar_to_lunar_eval_sound 10 2 2024 7). vm_compute. reflexivity.
  - apply (lunar_to_solar_eval_sound 1 1 2024 0 7). vm_compute. reflexivity.
Qed.

(** The lunar year of month 1 of 2024 runs from 13 December 2023 to
    1 December 2024: 354 days, no 13th lunation. *)
Lemma no_13th_lunation_2024 : has_13th_lunation 1 2024 7 = false.
Proof.
  unfold has_13th_lunation.
  rewrite (lunar_year_bounds_eval_sound 1 2024 7 (2460292, 2460646)%Z)
    by (vm_compute; reflexivity).
  reflexivity.
Qed.

Lemma leap_new_year_2024 : lunar_to_solar 1 1 2024 1 7 = (10, 2, 2024)%Z.
Proof.
  apply (lunar_to_solar_eval_sound 1 1 2024 1 7). vm_compute. reflexivity.
Qed.

(** C2, as stated, fails: 2024 has no 13th lunation, yet asking for a leap
    month 1 returns the date of the ordinary month 1, not the sentinel. *)
Lemma leap_flag_not_rejected_2024 :
  has_13th_lunation 1 2024 7 = false /\
  lunar_to_solar 1 1 2024 1 7 = (10, 2, 2024)%Z /\
  lunar_to_solar 1 1 2024 1 7 <> (0, 0, 0)%Z.
Proof.
  split; [exact no_13th_lunation_2024|].
  rewrite leap_new_year_2024. split; [reflexivity | discriminate].
Qed.

Lemma lunar_to_solar_ignores_leap_flag_witness :
  has_13th_lunation 1 2024 7 = false /\
  lunar_to_solar 1 1 2024 1 7 = lunar_to_solar 1 1 2024 0 7 /\
  lunar_to_solar 1 1 2024 1 7 <> (0, 0, 0)%Z.
Proof.
  split; [exact no_13th_lunation_2024|].
  exact (lunar_to_solar_ignores_leap_flag 1 1 2024 1 7 no_13th_lunation_2024).
Defined.

Lemma lunar_to_solar_sentinel_iff_witness :
  has_13th_lunation 1 2024 7 = false /\
  lunar_to_solar 1 1 2024 1 7 = lunar_to_solar 1 1 2024 0 7 /\
  lunar_to_solar 1 1 2024 1 7 <> (0, 0, 0)%Z.
Proof.
  split; [exact no_13th_lunation_2024|].
  exact (proj2 (lunar_to_solar_sentinel_iff 1 1 2024 1 7) no_13th_lunation_2024).
Defined.

(** C1, failing input: 15 December 1997 converts to day 16 of month 11 of
    1997, which converts back to 13 January 1998.  [get_lunar_month_11 1997]
    is the new moon of 29 December 1997 (day 2450812) instead of the one of
    30 November: the sector test [sun_long >= 9] sees a negative sector. *)
Theorem round_trip_fails_1997 :
  valid_date 15 12 1997 /\
  solar_to_lunar 15 12 1997 7 = (16, 11, 1997, 0)%Z /\
  lunar_to_solar 16 11 1997 0 7 = (13, 1, 1998)%Z /\
  get_lunar_month_11 1997 7 = julian_day_from_date 29 12 1997.
Proof.
  split; [|split; [|split]].
  - unfold valid_date. change (days_in_month 12 1997) with 31%Z. lia.
  - apply (solar_to_lunar_eval_sound 15 12 1997 7). vm_compute. reflexivity.
  - apply (lunar_to_solar_eval_sound 16 11 1997 0 7). vm_compute. reflexivity.
  - apply (get_lunar_month_11_eval_sound 1997 7). vm_compute. reflexivity.
Qed.

(** C3, failing input: at day number 2415020 (noon of 31 December 1899)
    the longitude returned is negative, and the sector at local midnight of
    day 2415021 is -2. *)
Theorem sun_longitude_negative_1900 :
  sun_longitude 2415020 < 0 /\ get_sun_longitude 2415021 7 = (-2)%Z.
Proof.
  split.
  - change (sun_longitude 2415020)
      with (sun_longitude (denote (EInt 2415020))).
    rewrite <- sun_longitude_expr_denote.
    destruct (approx (sun_longitude_expr (EInt 2415020))) as [b|] eqn:E;
      [|vm_compute in E; discriminate].
    apply (approx_negative _ b E).
    vm_compute in E. apply some_inj in E. subst b. reflexivity.
  - apply (get_sun_longitude_eval_sound 2415021 7). vm_compute. reflexivity.
Qed.

(** C6, failing input: 7 May 2054 is given lunar day 0.  The lunation index
    estimated from the day number is one too large, so the month start
    chosen is the day after. *)
Theorem lunar_day_zero_2054 :
  valid_date 7 5 2054 /\
  solar_to_lunar 7 5 2054 7 = (0, 4, 2054, 0)%Z.
Proof.
  split.
  - unfold valid_date. change (days_in_month 5 2054) with 31%Z. lia.
  - apply (solar_to_lunar_eval_sound 7 5 2054 7). vm_compute. reflexivity.
Qed.

Local Close Scope R_scope.

(** ** Further properties of the Julian day conversions *)





Lemma days_in_julian_month_cases m y :
  1 <= m <= 12 ->
  28 <= days_in_julian_month m y <= 31 /\
  (m = 4 \/ m = 6 \/ m = 9 \/ m = 11 -> days_in_julian_month m y = 30) /\
  (m = 2 ->
   days_in_julian_month m y <= 29 /\
   (days_in_julian_month m y = 29 -> y mod 4 = 0)).
Proof.
  intros Hm. unfold days_in_julian_month.
  destruct (Z.eqb_spec m 2); [subst|].
  - destruct (Z.eqb_spec (y mod 4) 0); lia.
  - destruct (Z.eqb_spec m 4), (Z.eqb_spec m 6), (Z.eqb_spec m 9),
             (Z.eqb_spec m 11); simpl; lia.
Qed.

Lemma year_of_julian_day Y doy :
  0 <= Y -> 0 <= doy <= 365 -> (doy = 365 -> Y mod 4 = 3) ->
  (4 * (365 * Y + Y / 4 + doy) + 3) / 1461 = Y /\
  (1461 * Y) / 4 = 365 * Y + Y / 4.
Proof. intros. lia. Qed.

(** X2: before the cutover the two functions are the Julian-calendar
    conversion: every valid Julian-calendar date of the years -4712..1581
    is taken through the Julian branch of both functions and comes back
    unchanged. *)
Theorem julian_day_roundtrip_julian d m y :
  valid_julian_date d m y -> -4712 <= y <= 1581 ->
  julian_day_from_date d m y <= 2299160 /\
  julian_day_to_date (julian_day_from_date d m y) = (d, m, y).
Proof.
  intros [Hm Hd] Hy.
  destruct (days_in_julian_month_cases m y Hm) as (H31 & H30 & H2).
  assert (Ha : 0 <= (14 - m) / 12 <= 1) by lia.
  assert (Hdoy : 0 <= march_day d m <= 365 /\
                 (march_day d m = 365 -> m = 2 /\ d = 29) /\
                 (5 * march_day d m + 2) / 153 = march_month m /\
                 0 <= march_month m <= 11).
  { unfold march_day, march_month. month_cases m Hc; lia. }
  destruct Hdoy as (Hr & Hfeb & HM & HMr).
  assert (Hjd : julian_day_from_date d m y
                = 365 * march_year m y + march_year m y / 4 + march_day d m - 32082).
  { clear Hfeb HM HMr H30 H2.
    unfold julian_day_from_date, march_day, march_month, march_year in *.
    rewrite (Z.quot_div_nonneg (14 - m) 12) by lia.
    set (a := (14 - m) / 12) in *.
    assert (HY0 : 87 <= y + 4800 - a <= 6381) by lia.
    set (Y := y + 4800 - a) in *.
    assert (HM0 : 0 <= m + 12 * a - 3 <= 11) by (unfold a; lia).
    set (M := m + 12 * a - 3) in *.
    rewrite (Z.quot_div_nonneg (153 * M + 2) 5) by lia.
    rewrite (Z.quot_div_nonneg Y 4) by lia.
    rewrite (Z.quot_div_nonneg Y 100) by lia.
    rewrite (Z.quot_div_nonneg Y 400) by lia.
    assert (B4 : 0 <= Y / 4 <= 1595) by lia.
    assert (B100 : 0 <= Y / 100) by lia.
    assert (B400 : 0 <= Y / 400 <= 15) by lia.
    assert (BM : 0 <= (153 * M + 2) / 5 <= 337) by lia.
    clearbody a Y M.
    set (q4 := Y / 4) in *. set (q100 := Y / 100) in *. set (q400 := Y / 400) in *.
    set (qm := (153 * M + 2) / 5) in *. clearbody q4 q100 q400 qm.
    cbv zeta.
    match goal with
    | |- context [if ?a <? ?b then _ else _] => destruct (Z.ltb_spec a b)
    end; lia. }
  set (Y := march_year m y) in *.
  assert (HY : 0 <= Y <= 6381) by (unfold Y, march_year; lia).
  assert (Hleap : march_day d m = 365 -> Y mod 4 = 3).
  { intros E. destruct (Hfeb E) as [-> ->]. specialize (H2 eq_refl).
    destruct H2 as [H29 H2]. assert (Hl : days_in_julian_month 2 y = 29) by lia.
    specialize (H2 Hl). unfold Y, march_year. lia. }
  destruct (year_of_julian_day Y (march_day d m) ltac:(lia) Hr Hleap) as [E1 E2].
  assert (Hcut : julian_day_from_date d m y <= 2299160) by (rewrite Hjd; lia).
  split; [exact Hcut|].
  unfold julian_day_to_date.
  replace (_ >? 2299160) with false
    by (symmetry; rewrite Z.gtb_ltb; apply Z.ltb_ge; exact Hcut).
  rewrite Hjd.
  replace (365 * Y + Y / 4 + march_day d m - 32082 + 32082)
    with (365 * Y + Y / 4 + march_day d m) by ring.
  rewrite (Z.quot_div_nonneg (4 * _ + 3) 1461) by lia.
  rewrite E1.
  rewrite (Z.quot_div_nonneg (1461 * Y) 4) by lia.
  rewrite E2.
  replace (365 * Y + Y / 4 + march_day d m - (365 * Y + Y / 4))
    with (march_day d m) by ring.
  rewrite (Z.quot_div_nonneg (5 * march_day d m + 2) 153) by lia.
  rewrite HM.
  rewrite (Z.quot_div_nonneg (153 * march_month m + 2) 5) by lia.
  rewrite (Z.quot_div_nonneg (march_month m) 10) by lia.
  cbv zeta. unfold march_day, march_month, Y, march_year.
  f_equal; [f_equal|]; lia.
Qed.

Lemma julian_day_roundtrip_julian_witness :
  valid_julian_date 29 2 1500 /\ -4712 <= 1500 <= 1581 /\
  julian_day_from_date 29 2 1500 <= 2299160 /\
  julian_day_to_date (julian_day_from_date 29 2 1500) = (29, 2, 1500).
Proof.
  assert (Hv : valid_julian_date 29 2 1500)
    by (unfold valid_julian_date; change (days_in_julian_month 2 1500) with 29; lia).
  assert (Hy : -4712 <= 1500 <= 1581) by lia.
  split; [exact Hv | split; [exact Hy | exact (julian_day_roundtrip_julian 29 2 1500 Hv Hy)]].
Defined.

(** X3: the cutover.  4 October 1582 and 15 October 1582 get consecutive
    day numbers, and the ten dates in between, which exist in neither
    calendar, are read as Julian dates: they come back ten days later. *)
Theorem julian_day_cutover_gap d :
  5 <= d <= 14 ->
  julian_day_from_date 4 10 1582 = 2299160 /\
  julian_day_from_date 15 10 1582 = 2299161 /\
  julian_day_from_date d 10 1582 = julian_day_from_date (d + 10) 10 1582 /\
  julian_day_to_date (julian_day_from_date d 10 1582) = (d + 10, 10, 1582).
Proof.
  intros Hd.
  assert (Hc : d = 5 \/ d = 6 \/ d = 7 \/ d = 8 \/ d = 9 \/ d = 10 \/ d = 11
               \/ d = 12 \/ d = 13 \/ d = 14) by lia.
  repeat (destruct Hc as [Hc | Hc]); subst d; vm_compute; repeat split.
Qed.

Lemma julian_day_cutover_gap_witness :
  5 <= 5 <= 14 /\
  julian_day_to_date (julian_day_from_date 5 10 1582) = (5 + 10, 10, 1582).
Proof.
  assert (H : 5 <= 5 <= 14) by lia.
  split; [exact H | exact (proj2 (proj2 (proj2 (julian_day_cutover_gap 5 H))))].
Defined.

(** ** Further properties of the name functions *)

Lemma py_index_none {A : Type} (l : list A) (i : Z) :
  py_index l i = None <->
  i < - Z.of_nat (List.length l) \/ Z.of_nat (List.length l) <= i.
Proof.
  unfold py_index. set (n := Z.of_nat (List.length l)).
  assert (Hn : n = Z.of_nat (List.length l)) by reflexivity.
  clearbody n.
  destruct (Z.leb_spec 0 i), (Z.ltb_spec i n); cbn [andb];
    [| destruct (Z.leb_spec (- n) i), (Z.ltb_spec i 0); cbn [andb]
     | destruct (Z.leb_spec (- n) i), (Z.ltb_spec i 0); cbn [andb]
     | lia];
    (split;
     [intros E; try (apply nth_error_None in E); lia
     | intros E; try reflexivity; lia]).
Qed.

(** X4: [zodiac_month] raises [IndexError] exactly when the month is
    outside [-13, 12]: the month table is indexed directly, so negative
    months wrap around and month 0 selects the empty placeholder name. *)
Theorem zodiac_month_index_error month year :
  (zodiac_month month year = None <-> month < -13 \/ 12 < month) /\
  (exists can, py_index CAN ((year * 12 + 0 + 3) mod 10) = Some can /\
               zodiac_month 0 year = Some (format2 can EmptyString)).
Proof.
  assert (Hcan : forall i, exists c, py_index CAN (i mod 10) = Some c).
  { intros i. apply py_index_in_range.
    change (Z.of_nat (List.length CAN)) with 10. apply Z.mod_pos_bound. lia. }
  split.
  - unfold zodiac_month.
    destruct (Hcan (year * 12 + month + 3)) as [c ->].
    pose proof (py_index_none CHI_MONTH month) as Hn.
    change (Z.of_nat (List.length CHI_MONTH)) with 13 in Hn.
    destruct (py_index CHI_MONTH month) as [h|].
    + split; [discriminate|]. intros H. exfalso.
      assert (Some h = None) by (apply Hn; lia). discriminate.
    + split; [|reflexivity]. intros _. assert (month < -13 \/ 13 <= month)
        by (apply Hn; reflexivity). lia.
  - destruct (Hcan (year * 12 + 0 + 3)) as [c Hc]. exists c.
    split; [exact Hc|]. unfold zodiac_month. rewrite Hc. reflexivity.
Qed.

Lemma zodiac_year_residue year : zodiac_year year = zodiac_year (year mod 60).
Proof.
  unfold zodiac_year.
  replace ((year mod 60 + 6) mod 10) with ((year + 6) mod 10) by lia.
  replace ((year mod 60 + 8) mod 12) with ((year + 8) mod 12) by lia.
  reflexivity.
Qed.

Lemma zodiac_year_defined year : exists s, zodiac_year year = Some s.
Proof.
  unfold zodiac_year.
  destruct (py_index_in_range CAN ((year + 6) mod 10)) as [c ->].
  { change (Z.of_nat (List.length CAN)) with 10. apply Z.mod_pos_bound. lia. }
  destruct (py_index_in_range CHI ((year + 8) mod 12)) as [h ->].
  { change (Z.of_nat (List.length CHI)) with 12. apply Z.mod_pos_bound. lia. }
  eauto.
Qed.

Lemma zodiac_year_cycle_distinct r1 r2 :
  0 <= r1 < 60 -> 0 <= r2 < 60 -> zodiac_year r1 = zodiac_year r2 -> r1 = r2.
Proof.
  intros H1 H2 E.
  assert (Hb : forallb (fun a => forallb (fun b =>
            implb (match zodiac_year (Z.of_nat a), zodiac_year (Z.of_nat b) with
                   | Some s, Some t => String.eqb s t
                   | _, _ => true
                   end) (Nat.eqb a b)) (seq 0 60)) (seq 0 60) = true)
    by (vm_compute; reflexivity).
  rewrite forallb_forall in Hb.
  specialize (Hb (Z.to_nat r1)). rewrite in_seq in Hb.
  specialize (Hb ltac:(lia)). rewrite forallb_forall in Hb.
  specialize (Hb (Z.to_nat r2)). rewrite in_seq in Hb.
  specialize (Hb ltac:(lia)).
  rewrite !Z2Nat.id in Hb by lia.
  destruct (zodiac_year_defined r1) as [s Hs].
  rewrite <- E, Hs in Hb. rewrite String.eqb_refl in Hb. cbn [implb] in Hb.
  apply Nat.eqb_eq in Hb. lia.
Qed.

(** X5: [zodiac_year] always returns a name, and two years get the same
    name exactly when they differ by a multiple of 60: the can-chi cycle of
    years has period exactly 60. *)
Theorem zodiac_year_period_60 y1 y2 :
  (exists s, zodiac_year y1 = Some s) /\
  (zodiac_year y1 = zodiac_year y2 <-> (y1 - y2) mod 60 = 0).
Proof.
  split; [apply zodiac_year_defined|].
  rewrite (zodiac_year_residue y1), (zodiac_year_residue y2).
  split.
  - intros E. apply zodiac_year_cycle_distinct in E; lia.
  - intros E. replace (y1 mod 60) with (y2 mod 60) by lia. reflexivity.
Qed.

(** X6: the can-chi name of a day is the name [zodiac_year] gives to its
    Julian day number plus 53; so it is defined for every (day, month,
    year) triple, and two dates share a name exactly when their day
    numbers differ by a multiple of 60. *)
Theorem zodiac_day_cycle d1 m1 y1 d2 m2 y2 :
  zodiac_day d1 m1 y1 = zodiac_year (julian_day_from_date d1 m1 y1 + 53) /\
  (zodiac_day d1 m1 y1 = zodiac_day d2 m2 y2 <->
   (julian_day_from_date d1 m1 y1 - julian_day_from_date d2 m2 y2) mod 60 = 0).
Proof.
  assert (E : forall d m y,
             zodiac_day d m y = zodiac_year (julian_day_from_date d m y + 53)).
  { intros d m y. unfold zodiac_day, zodiac_year. cbv zeta.
    set (jd := julian_day_from_date d m y).
    replace ((jd + 53 + 6) mod 10) with ((jd + 9) mod 10) by lia.
    replace ((jd + 53 + 8) mod 12) with ((jd + 1) mod 12) by lia.
    reflexivity. }
  split; [apply E|].
  rewrite !E.
  destruct (zodiac_year_period_60 (julian_day_from_date d1 m1 y1 + 53)
              (julian_day_from_date d2 m2 y2 + 53)) as [_ ->].
  replace (julian_day_from_date d1 m1 y1 + 53 - (julian_day_from_date d2 m2 y2 + 53))
    with (julian_day_from_date d1 m1 y1 - julian_day_from_date d2 m2 y2) by ring.
  reflexivity.
Qed.


(** ** Further properties of the solar longitude *)

Lemma int_trunc_spec x :
  (0 <= x -> IZR (int_trunc x) <= x < IZR (int_trunc x) + 1)%R /\
  (x <= 0 -> IZR (int_trunc x) - 1 < x <= IZR (int_trunc x))%R.
Proof.
  unfold int_trunc. destruct (Rle_dec 0 x) as [Hx | Hx].
  - destruct (base_Int_part x) as [H1 H2]. split; intros H; [lra|].
    assert (E : x = 0%R) by lra. subst x.
    assert (A : (-1 < IZR (Int_part 0))%R) by lra.
    assert (B : (IZR (Int_part 0) < 1)%R) by lra.
    apply lt_IZR in A, B. replace (Int_part 0) with 0 by lia. lra.
  - destruct (base_Int_part (- x)) as [H1 H2]. rewrite opp_IZR.
    split; intros H; lra.
Qed.

Lemma frac_trunc_range q :
  (-1 < q - IZR (int_trunc q) < 1)%R /\
  (0 <= q -> 0 <= q - IZR (int_trunc q))%R.
Proof.
  destruct (int_trunc_spec q) as [Hp Hn].
  destruct (Rle_dec 0 q) as [Hq | Hq].
  - specialize (Hp Hq). split; [lra | intros _; lra].
  - assert (Hq' : (q <= 0)%R) by lra. specialize (Hn Hq'). split; [lra | intros; lra].
Qed.

Lemma sun_longitude_normalised jdn :
  exists L : R,
    sun_longitude jdn
    = (PI * 2 * (L / (PI * 2) - IZR (int_trunc (L / (PI * 2)))))%R /\
    (2451545 <= jdn -> 0 <= L)%R.
Proof.
  unfold sun_longitude. cbv zeta.
  set (T := ((jdn - 2451545.0) / 36525)%R).
  set (M := (357.52910 + 35999.05030 * T - 0.0001559 * (T * T)
             - 0.00000048 * T * (T * T))%R).
  set (deg := (280.46645 + 36000.76983 * T + 0.0003032 * (T * T)
               + ((1.914600 - 0.004817 * T - 0.000014 * (T * T))
                  * sin (PI / 180 * M)
                  + ((0.019993 - 0.000101 * T) * sin (PI / 180 * 2 * M)
                     + 0.000290 * sin (PI / 180 * 3 * M))))%R).
  exists (deg * (PI / 180))%R.
  pose proof PI_RGT_0 as HPI.
  split.
  - field. lra.
  - intros Hj.
    assert (HT : (0 <= T)%R).
    { unfold T. apply Rmult_le_pos; [|left; apply Rinv_0_lt_compat; lra].
      replace 2451545.0%R with 2451545%R by lra. lra. }
    assert (Hdeg : (0 <= deg)%R).
    { unfold deg.
      pose proof (SIN_bound (PI / 180 * M)) as [S1 S1'].
      pose proof (SIN_bound (PI / 180 * 2 * M)) as [S2 S2'].
      pose proof (SIN_bound (PI / 180 * 3 * M)) as [S3 S3'].
      set (s1 := sin (PI / 180 * M)) in *.
      set (s2 := sin (PI / 180 * 2 * M)) in *.
      set (s3 := sin (PI / 180 * 3 * M)) in *.
      clearbody s1 s2 s3. clear M.
      assert (HTT : (0 <= T * T)%R) by (apply Rmult_le_pos; assumption).
      set (T2 := (T * T)%R) in *. clearbody T2.
      assert (B1 : (- (1.914600 + 0.004817 * T + 0.000014 * T2)
                    <= (1.914600 - 0.004817 * T - 0.000014 * T2) * s1)%R) by nra.
      assert (B2 : (- (0.019993 + 0.000101 * T)
                    <= (0.019993 - 0.000101 * T) * s2)%R) by nra.
      lra. }
    apply Rmult_le_pos; [exact Hdeg|].
    apply Rmult_le_pos; [lra | left; apply Rinv_0_lt_compat; lra].
Qed.

(** X8: whatever the (real) day number, [sun_longitude] returns a value
    strictly between -2 PI and 2 PI, and [get_sun_longitude] a sector index
    between -11 and 11: the normalisation truncates toward zero, so the
    sign of the unnormalised longitude survives. *)
Theorem sun_longitude_range jdn day_number time_zone :
  (- (2 * PI) < sun_longitude jdn < 2 * PI)%R /\
  -11 <= get_sun_longitude day_number time_zone <= 11.
Proof.
  pose proof PI_RGT_0 as HPI.
  assert (Hrange : forall j, (- (2 * PI) < sun_longitude j < 2 * PI)%R).
  { intros j. destruct (sun_longitude_normalised j) as (L & -> & _).
    destruct (frac_trunc_range (L / (PI * 2))) as [[F1 F2] _].
    split; nra. }
  split; [apply Hrange|].
  unfold get_sun_longitude.
  set (r := sun_longitude _). destruct (Hrange (IZR day_number - 0.5 - time_zone / 24)%R)
    as [R1 R2]. fold r in R1, R2.
  assert (Hx : (-12 < r / PI * 6 < 12)%R).
  { replace (r / PI * 6)%R with (r * 6 * / PI)%R by (field; lra).
    assert (HI : (0 < / PI)%R) by (apply Rinv_0_lt_compat; lra).
    assert (E : (PI * / PI = 1)%R) by (field; lra).
    split; nra. }
  set (x := (r / PI * 6)%R) in *. clearbody x.
  destruct (int_trunc_spec x) as [Hp Hn].
  destruct (Rle_dec 0 x) as [H0 | H0].
  - specialize (Hp H0).
    assert (A : (IZR (int_trunc x) < 12)%R) by lra.
    assert (B : (-1 < IZR (int_trunc x))%R) by lra.
    apply lt_IZR in A, B. lia.
  - assert (H0' : (x <= 0)%R) by lra. specialize (Hn H0').
    assert (A : (-12 < IZR (int_trunc x))%R) by lra.
    assert (B : (IZR (int_trunc x) < 1)%R) by lra.
    apply lt_IZR in A, B. lia.
Qed.

Lemma sun_longitude_nonneg_from_2000 jdn :
  (2451545 <= jdn)%R ->
  (0 <= sun_longitude jdn < 2 * PI)%R /\
  0 <= int_trunc (sun_longitude jdn / PI * 6) <= 11.
Proof.
  intros Hj. pose proof PI_RGT_0 as HPI.
  destruct (sun_longitude_normalised jdn) as (L & E & HL).
  specialize (HL Hj).
  assert (Hq : (0 <= L / (PI * 2))%R).
  { apply Rmult_le_pos; [exact HL | left; apply Rinv_0_lt_compat; lra]. }
  destruct (frac_trunc_range (L / (PI * 2))) as [[F1 F2] F3].
  specialize (F3 Hq).
  assert (Hr : (0 <= sun_longitude jdn < 2 * PI)%R) by (rewrite E; split; nra).
  split; [exact Hr|].
  set (r := sun_longitude jdn) in *. clearbody r.
  assert (Hx : (0 <= r / PI * 6 < 12)%R).
  { replace (r / PI * 6)%R with (r * 6 * / PI)%R by (field; lra).
    assert (HI : (0 < / PI)%R) by (apply Rinv_0_lt_compat; lra).
    assert (E1 : (PI * / PI = 1)%R) by (field; lra).
    split; nra. }
  set (x := (r / PI * 6)%R) in *. clearbody x.
  destruct (int_trunc_spec x) as [Hp _]. specialize (Hp (proj1 Hx)).
  assert (A : (IZR (int_trunc x) < 12)%R) by lra.
  assert (B : (-1 < IZR (int_trunc x))%R) by lra.
  apply lt_IZR in A, B. lia.
Qed.

(** X9: from the epoch J2000 on (day number 2451545.0) the longitude is
    normalised as intended: at local midnight of any day whose instant is
    not before J2000, [sun_longitude] lies in [0, 2 PI) and
    [get_sun_longitude] returns a sector in [0, 11]. *)
Theorem sun_longitude_range_from_2000 day_number time_zone :
  (2451545 <= IZR day_number - 0.5 - time_zone / 24)%R ->
  (0 <= sun_longitude (IZR day_number - 0.5 - time_zone / 24) < 2 * PI)%R /\
  0 <= get_sun_longitude day_number time_zone <= 11.
Proof.
  intros H. exact (sun_longitude_nonneg_from_2000 _ H).
Qed.

Lemma sun_longitude_range_from_2000_witness :
  (2451545 <= IZR 2451546 - 0.5 - 7 / 24)%R /\
  (0 <= sun_longitude (IZR 2451546 - 0.5 - 7 / 24) < 2 * PI)%R /\
  0 <= get_sun_longitude 2451546 7 <= 11.
Proof.
  assert (H : (2451545 <= IZR 2451546 - 0.5 - 7 / 24)%R) by lra.
  split; [exact H | exact (sun_longitude_range_from_2000 2451546 7 H)].
Defined.

(** ** Further properties of the leap-month scan and of [lunar_to_solar] *)

Lemma leap_scan_first_repeat fuel k tz :
  forall i r n,
    leap_scan fuel k tz i
      (get_sun_longitude (get_new_moon_day (k + i) tz) tz) = Some (r, n) ->
    (forall j, i <= j < r - 1 ->
       get_sun_longitude (get_new_moon_day (k + (j + 1)) tz) tz
       <> get_sun_longitude (get_new_moon_day (k + j) tz) tz) /\
    (r < 14 ->
       get_sun_longitude (get_new_moon_day (k + r) tz) tz
       = get_sun_longitude (get_new_moon_day (k + (r - 1)) tz) tz) /\
    i < r.
Proof.
  induction fuel as [|fuel IH]; intros i r n H; cbn [leap_scan] in H.
  - discriminate.
  - destruct (Z.eqb_spec
                (get_sun_longitude (get_new_moon_day (k + (i + 1)) tz) tz)
                (get_sun_longitude (get_new_moon_day (k + i) tz) tz)) as [Eq | Ne];
      cbn [negb andb] in H.
    + apply some_inj in H. injection H as <- _.
      split; [intros j Hj; lia|]. split; [|lia].
      intros _. replace (i + 1 - 1) with i by ring. exact Eq.
    + destruct (Z.ltb_spec (i + 1) 14) as [Hlt | Hge]; cbn [negb] in H.
      * destruct (leap_scan fuel k tz (i + 1) _) as [[r' n']|] eqn:E;
          [|discriminate].
        apply some_inj in H. injection H as <- _.
        destruct (IH _ _ _ E) as (A & B & C).
        split; [|split; [exact B | lia]].
        intros j Hj. destruct (Z.eq_dec j i) as [-> | Hne]; [exact Ne|].
        apply A. lia.
      * apply some_inj in H. injection H as <- _.
        split; [intros j Hj; lia | split; lia].
Qed.

(** X10: what [get_leap_month_offset] returns.  With [k] the lunation index
    nearest to [a11], the offset [off] is the first index in 1..13 such that
    the new moons [k + off] and [k + off + 1] fall in the same sector (the
    lunation between them contains no sector boundary); all earlier
    consecutive new moons fall in different sectors; and when no such index
    exists below 13 the answer is 13. *)
Theorem get_leap_month_offset_first_repeat a11 tz :
  let k := int_trunc ((IZR a11 - 2415021.076998695) / 29.530588853 + 0.5) in
  let off := get_leap_month_offset a11 tz in
  (forall j, 1 <= j < off ->
     get_sun_longitude (get_new_moon_day (k + (j + 1)) tz) tz
     <> get_sun_longitude (get_new_moon_day (k + j) tz) tz) /\
  (off < 13 ->
     get_sun_longitude (get_new_moon_day (k + (off + 1)) tz) tz
     = get_sun_longitude (get_new_moon_day (k + off) tz) tz).
Proof.
  cbv zeta.
  destruct (get_leap_month_offset_steps_spec a11 tz 0)
    as (off & n & Hs & _ & _ & ->).
  unfold get_leap_month_offset_steps in Hs. cbv zeta in Hs.
  set (k := int_trunc _) in *.
  destruct (leap_scan (13 + 0) k tz 1 _) as [[r n']|] eqn:E; [|discriminate].
  apply some_inj in Hs. injection Hs as <- _.
  destruct (leap_scan_first_repeat _ _ _ _ _ _ E) as (A & B & C).
  split.
  - intros j Hj. apply A. lia.
  - intros Hoff. replace (r - 1 + 1) with r by ring. apply B. lia.
Qed.

(** X11: [lunar_to_solar] does not validate the lunar day.  For a given
    month, year, flag and time zone, either every day is answered with the
    sentinel, or there is a new-moon day [ms] such that lunar day [ld] is
    answered with the date of day number [ms + ld - 1], whatever [ld] is;
    and with the flag clear it is never the sentinel. *)
Theorem lunar_to_solar_day_shift lm ly leap tz :
  ((forall ld, lunar_to_solar ld lm ly leap tz = (0, 0, 0)) \/
   (exists k, forall ld,
      lunar_to_solar ld lm ly leap tz
      = julian_day_to_date (get_new_moon_day k tz + ld - 1))) /\
  (forall ld, lunar_to_solar ld lm ly 0 tz <> (0, 0, 0)).
Proof.
  split.
  - unfold lunar_to_solar.
    destruct (if lm <? 11
              then (get_lunar_month_11 (ly - 1) tz, get_lunar_month_11 ly tz)
              else (get_lunar_month_11 ly tz, get_lunar_month_11 (ly + 1) tz))
      as [a11 b11].
    cbv zeta.
    match goal with
    | |- context [match ?o with Some _ => _ | None => _ end] =>
        destruct o as [off|]
    end.
    + right. eexists. intros ld. reflexivity.
    + left. intros ld. reflexivity.
  - intros ld.
    destruct (has_13th_lunation lm ly tz) eqn:E.
    + intros H. apply (lunar_to_solar_13th ld lm ly 0 tz E) in H.
      destruct H as [H _]. apply H. reflexivity.
    + apply (lunar_to_solar_no_13th ld lm ly 0 tz E).
Qed.

(** ** The sensors *)

Lemma solar_to_lunar_2054_05_07 :
  solar_to_lunar 7 5 2054 7 = (0, 4, 2054, 0).
Proof.
  apply (solar_to_lunar_eval_sound 7 5 2054 7).
  vm_cast_no_check (@eq_refl (option (Z * Z * Z * Z)) (Some (0, 4, 2054, 0))).
Qed.

(** X12: the update of the next-new-month sensor raises ([next_month] is
    unbound) exactly when the converter reports a lunar day below 1; this
    does happen, on 7 May 2054.  The update of the next-full-moon sensor
    never raises before the [datetime] is built. *)
Theorem next_lunar_first_update_raises now_day now_month now_year :
  (next_lunar_first_update now_day now_month now_year = Raised <->
   fst (fst (fst (solar_to_lunar now_day now_month now_year 7))) < 1) /\
  next_lunar_first_update 7 5 2054 = Raised /\
  next_lunar_fifteenth_update now_day now_month now_year <> Raised.
Proof.
  split; [|split].
  - unfold next_lunar_first_update, next_lunar_first_target.
    destruct (solar_to_lunar now_day now_month now_year 7) as [[[ld lm] ly] lp].
    cbn [fst]. cbv zeta.
    destruct (Z.geb_spec ld 1) as [Hge | Hlt].
    + split; [|lia].
      destruct (lm + 1 >? 12);
        match goal with
        | |- context [if ?c then _ else _] => destruct c
        end; discriminate.
    + split; [intros _; lia | reflexivity].
  - unfold next_lunar_first_update. rewrite solar_to_lunar_2054_05_07. reflexivity.
  - unfold next_lunar_fifteenth_update.
    destruct (solar_to_lunar now_day now_month now_year 7) as [[[ld lm] ly] lp].
    destruct (next_lunar_fifteenth_target ld lm ly) as [tm ty].
    cbv zeta.
    match goal with
    | |- context [if ?c then _ else _] => destruct c
    end; discriminate.
Qed.

(** X13: for a lunar month in 1..12 the targets of the two sensors stay in
    1..12 and advance by whole months: the next-new-month target is exactly
    one month after the current month, the next-full-moon target is the
    current month before the 15th and the following month from the 15th on;
    the year changes only when month 12 wraps to month 1.  The lookup uses
    leap flag 0, so it is never answered with the sentinel. *)
Theorem sensor_targets lunar_day lunar_month lunar_year :
  1 <= lunar_month <= 12 ->
  (1 <= lunar_day ->
   exists tm ty,
     next_lunar_first_target lunar_day lunar_month lunar_year = Some (tm, ty) /\
     1 <= tm <= 12 /\
     12 * ty + tm = 12 * lunar_year + lunar_month + 1 /\
     lunar_to_solar 1 tm ty 0 7 <> (0, 0, 0)) /\
  (let '(tm, ty) :=
     next_lunar_fifteenth_target lunar_day lunar_month lunar_year in
   1 <= tm <= 12 /\
   12 * ty + tm
   = 12 * lunar_year + lunar_month + (if lunar_day >=? 15 then 1 else 0) /\
   lunar_to_solar 15 tm ty 0 7 <> (0, 0, 0)).
Proof.
  intros Hm. split.
  - intros Hd. unfold next_lunar_first_target.
    destruct (Z.geb_spec lunar_day 1); [|lia]. cbv zeta.
    destruct (Z.gtb_spec (lunar_month + 1) 12); eexists; eexists;
      (split; [reflexivity|]); (split; [lia|]); (split; [lia|]);
      apply (proj2 (lunar_to_solar_day_shift _ _ 0 7)).
  - unfold next_lunar_fifteenth_target.
    destruct (lunar_day >=? 15); cbv zeta;
      [destruct (Z.gtb_spec (lunar_month + 1) 12)|];
      (split; [lia|]); (split; [lia|]);
      apply (proj2 (lunar_to_solar_day_shift _ _ 0 7)).
Qed.

Lemma sensor_targets_witness :
  1 <= 12 <= 12 /\
  (let '(tm, ty) := next_lunar_fifteenth_target 20 12 2024 in
   1 <= tm <= 12 /\
   12 * ty + tm = 12 * 2024 + 12 + (if 20 >=? 15 then 1 else 0) /\
   lunar_to_solar 15 tm ty 0 7 <> (0, 0, 0)).
Proof.
  assert (H : 1 <= 12 <= 12) by lia.
  split; [exact H | exact (proj2 (sensor_targets 20 12 2024 H))].
Defined.

(** ** Days that overflow the month, time zones, and the size of the
    periodic terms *)



Lemma int_trunc_monotone x y : (x <= y)%R -> int_trunc x <= int_trunc y.
Proof.
  intros Hxy.
  destruct (int_trunc_spec x) as [Xp Xn]. destruct (int_trunc_spec y) as [Yp Yn].
  destruct (Rle_dec 0 x) as [Hx | Hx]; destruct (Rle_dec 0 y) as [Hy | Hy].
  - specialize (Xp Hx). specialize (Yp Hy).
    assert (A : (IZR (int_trunc x) < IZR (int_trunc y) + 1)%R) by lra.
    rewrite <- plus_IZR in A. apply lt_IZR in A. lia.
  - lra.
  - assert (Hx' : (x <= 0)%R) by lra. specialize (Xn Hx'). specialize (Yp Hy).
    assert (A : (IZR (int_trunc x) - 1 < 0)%R) by lra.
    assert (B : (-1 < IZR (int_trunc y))%R) by lra.
    rewrite <- minus_IZR in A. apply lt_IZR in A, B. lia.
  - assert (Hx' : (x <= 0)%R) by lra. assert (Hy' : (y <= 0)%R) by lra.
    specialize (Xn Hx'). specialize (Yn Hy').
    assert (A : (IZR (int_trunc x) - 1 < IZR (int_trunc y))%R) by lra.
    rewrite <- minus_IZR in A. apply lt_IZR in A. lia.
Qed.

Lemma int_trunc_step x y :
  (x <= y <= x + 1)%R -> int_trunc y <= int_trunc x + 1.
Proof.
  intros [Hxy Hyx].
  destruct (int_trunc_spec x) as [Xp Xn]. destruct (int_trunc_spec y) as [Yp Yn].
  destruct (Rle_dec 0 x) as [Hx | Hx]; destruct (Rle_dec 0 y) as [Hy | Hy].
  - specialize (Xp Hx). specialize (Yp Hy).
    assert (A : (IZR (int_trunc y) < IZR (int_trunc x) + 2)%R) by lra.
    rewrite <- plus_IZR in A. apply lt_IZR in A. lia.
  - lra.
  - assert (Hx' : (x <= 0)%R) by lra. specialize (Xn Hx'). specialize (Yp Hy).
    assert (A : (IZR (int_trunc y) < IZR (int_trunc x) + 2)%R) by lra.
    rewrite <- plus_IZR in A. apply lt_IZR in A. lia.
  - assert (Hx' : (x <= 0)%R) by lra. assert (Hy' : (y <= 0)%R) by lra.
    specialize (Xn Hx'). specialize (Yn Hy').
    assert (A : (IZR (int_trunc y) - 1 < IZR (int_trunc x) + 1)%R) by lra.
    rewrite <- minus_IZR, <- plus_IZR in A. apply lt_IZR in A. lia.
Qed.

(** X15: the local day of a new moon moves with the time zone only:
    going east (a larger offset) never makes the day earlier, and offsets
    at most 24 hours apart give days at most one apart. *)
Theorem get_new_moon_day_time_zone k tz1 tz2 :
  (tz1 <= tz2)%R ->
  get_new_moon_day k tz1 <= get_new_moon_day k tz2 /\
  ((tz2 <= tz1 + 24)%R -> get_new_moon_day k tz2 <= get_new_moon_day k tz1 + 1).
Proof.
  intros H. unfold get_new_moon_day. split.
  - apply int_trunc_monotone. lra.
  - intros H24. apply int_trunc_step. lra.
Qed.

Lemma get_new_moon_day_time_zone_witness :
  (0 <= 7)%R /\
  get_new_moon_day 1535 0 <= get_new_moon_day 1535 7.
Proof.
  assert (H : (0 <= 7)%R) by lra.
  split; [exact H | exact (proj1 (get_new_moon_day_time_zone 1535 0 7 H))].
Defined.

(** X16: size of the periodic terms of [new_moon].  Within eleven Julian
    centuries of 1900 the instant returned differs from the mean lunation
    (the polynomial part, with the modern delta-T) by less than 0.63
    day. *)
Theorem new_moon_periodic_bound k_th :
  (-11 <= k_th / 1236.85 <= 11)%R ->
  let T := (k_th / 1236.85)%R in
  let mean := (2415020.75933 + 29.53058868 * k_th + 0.0001178 * (T * T)
               - 0.000000155 * (T * T * T)
               - (-0.000278 + 0.000265 * T + 0.000262 * (T * T)))%R in
  (Rabs (new_moon k_th - mean) <= 0.63)%R.
Proof.
  intros [HT1 HT2]. cbv zeta. unfold new_moon. cbv zeta.
  set (T := (k_th / 1236.85)%R) in *.
  destruct (Rlt_dec T (-11)) as [Hlt | _]; [lra|].
  repeat match goal with
  | |- context [sin ?a] =>
      let s := fresh "s" in
      let Hs := fresh "Hs" in
      pose proof (SIN_bound a) as Hs; set (s := sin a) in *; clearbody s
  end.
  apply Rabs_le.
  assert (B : (- 0.1778 <= (0.1734 - 0.000393 * T) * s0 <= 0.1778)%R).
  { destruct Hs0. split; nra. }
  set (p := ((0.1734 - 0.000393 * T) * s0)%R) in *. clearbody p.
  split; lra.
Qed.

Lemma new_moon_periodic_bound_witness :
  (-11 <= 1535 / 1236.85 <= 11)%R /\
  (Rabs (new_moon 1535
         - (2415020.75933 + 29.53058868 * 1535
            + 0.0001178 * (1535 / 1236.85 * (1535 / 1236.85))
            - 0.000000155 * (1535 / 1236.85 * (1535 / 1236.85) * (1535 / 1236.85))
            - (-0.000278 + 0.000265 * (1535 / 1236.85)
               + 0.000262 * (1535 / 1236.85 * (1535 / 1236.85)))))
   <= 0.63)%R.
Proof.
  assert (H : (-11 <= 1535 / 1236.85 <= 11)%R) by lra.
  split; [exact H | exact (new_moon_periodic_bound 1535 H)].
Defined.
